(** * Upload queue of the route planner (src/utils/uploadQueue.ts)

    A shallow embedding of the [UploadQueue] class.  The JavaScript event loop
    is modelled as a sequence of events, each running one synchronous slice of
    the program to completion:
    - [AddUpload], [RemoveUpload], [RetryUpload], [ClearCompleted]: the public
      methods called by the UI;
    - [ReadSettled]: the [fileToBase64] promise of an in-flight
      [processUpload] settles and the continuation after the first [await] runs;
    - [ExtractSettled]: the [extractAddressesFromWebhook] promise settles and
      the continuation after the second [await] runs (the [try]/[catch]/[finally]).

    The observer callback registered by [addUpload] is modelled by an opaque
    token; an invocation [callback(updatedUpload)] appends the token and the
    snapshot to [notifications].  The callbacks of the application
    (src/App.tsx) only schedule React state updates and timers, so an
    invocation returns normally and does not re-enter the queue.  Calls to
    [URL.revokeObjectURL] are recorded in [revoked]. *)

From Stdlib Require Import String List Bool Arith Lia ZArith NArith Permutation.
Import ListNotations.
Open Scope string_scope.
Open Scope list_scope.

(** ** JavaScript [Map] and [Set] *)

(** A [Map<string, V>] iterates in insertion order; [set] on an existing key
    replaces the value in place, on a new key appends it. *)
Definition JsMap (V : Type) := list (string * V).

Section JsMapOps.
Context {V : Type}.

Fixpoint map_get (m : JsMap V) (k : string) : option V :=
  match m with
  | [] => None
  | (k', v) :: m' => if String.eqb k' k then Some v else map_get m' k
  end.

Fixpoint map_has (m : JsMap V) (k : string) : bool :=
  match m with
  | [] => false
  | (k', _) :: m' => String.eqb k' k || map_has m' k
  end.

Fixpoint map_replace (m : JsMap V) (k : string) (v : V) : JsMap V :=
  match m with
  | [] => []
  | (k', v') :: m' =>
      if String.eqb k' k then (k', v) :: m' else (k', v') :: map_replace m' k v
  end.

Definition map_set (m : JsMap V) (k : string) (v : V) : JsMap V :=
  if map_has m k then map_replace m k v else m ++ [(k, v)].

Definition map_delete (m : JsMap V) (k : string) : JsMap V :=
  filter (fun p => negb (String.eqb (fst p) k)) m.

Definition map_values (m : JsMap V) : list V := map snd m.

End JsMapOps.

(** A [Set<string>]: [add] of a present element does nothing. *)
Definition JsSet := list string.

Definition set_has (s : JsSet) (x : string) : bool :=
  existsb (String.eqb x) s.

Definition set_add (s : JsSet) (x : string) : JsSet :=
  if set_has s x then s else s ++ [x].

Definition set_delete (s : JsSet) (x : string) : JsSet :=
  filter (fun y => negb (String.eqb y x)) s.

Definition set_size (s : JsSet) : nat := length s.

(** ** Data model (src/types.ts) *)

Inductive UploadStatus := Pending | Processing | Completed | Failed.

Definition status_eqb (a b : UploadStatus) : bool :=
  match a, b with
  | Pending, Pending | Processing, Processing
  | Completed, Completed | Failed, Failed => true
  | _, _ => false
  end.

(** The part of a browser [File] the queue reads: its MIME [type]. *)
Record File := mkFile { file_name : string; file_type : string }.

Record PendingUpload := mkUpload {
  id : string;
  file : File;
  status : UploadStatus;
  addresses : option (list string);
  error : option string;
  timestamp : Z;
  thumbnail : option string
}.

(** The identity of an observer callback. *)
Definition Callback := nat.

(** The continuation of an in-flight [processUpload id]: waiting on
    [fileToBase64(upload.file)], or on [extractAddressesFromWebhook]. *)
Inductive Stage :=
  | Reading (f : File)
  | Extracting (base64Image : string) (mimeType : string).

Record Task := mkTask { task_id : string; task_stage : Stage }.

Record UploadQueue := mkQueue {
  pendingUploads : JsMap PendingUpload;
  processingUploads : JsSet;
  callbacks : JsMap Callback;
  inflight : list Task;
  notifications : list (Callback * PendingUpload);
  revoked : list string
}.

Definition empty_queue : UploadQueue := mkQueue [] [] [] [] [] [].

Definition MAX_CONCURRENT_UPLOADS : nat := 5.

(** Field updates. *)
Definition set_pendingUploads (q : UploadQueue) m :=
  mkQueue m q.(processingUploads) q.(callbacks) q.(inflight) q.(notifications) q.(revoked).
Definition set_processingUploads (q : UploadQueue) s :=
  mkQueue q.(pendingUploads) s q.(callbacks) q.(inflight) q.(notifications) q.(revoked).
Definition set_callbacks (q : UploadQueue) c :=
  mkQueue q.(pendingUploads) q.(processingUploads) c q.(inflight) q.(notifications) q.(revoked).
Definition set_inflight (q : UploadQueue) t :=
  mkQueue q.(pendingUploads) q.(processingUploads) q.(callbacks) t q.(notifications) q.(revoked).
Definition notify (q : UploadQueue) cb u :=
  mkQueue q.(pendingUploads) q.(processingUploads) q.(callbacks) q.(inflight)
          (q.(notifications) ++ [(cb, u)]) q.(revoked).
Definition revokeObjectURL (q : UploadQueue) url :=
  mkQueue q.(pendingUploads) q.(processingUploads) q.(callbacks) q.(inflight)
          q.(notifications) (q.(revoked) ++ [url]).

(** ** The methods of [UploadQueue] *)

(** [{...upload, status, addresses, error}] *)
Definition with_status (u : PendingUpload) st addrs err : PendingUpload :=
  mkUpload u.(id) u.(file) st addrs err u.(timestamp) u.(thumbnail).

Definition updateUploadStatus (q : UploadQueue) (uid : string) (st : UploadStatus)
    (addrs : option (list string)) (err : option string) : UploadQueue :=
  match map_get q.(pendingUploads) uid with
  | None => q
  | Some upload =>
      let updatedUpload := with_status upload st addrs err in
      let q1 := set_pendingUploads q (map_set q.(pendingUploads) uid updatedUpload) in
      match map_get q1.(callbacks) uid with
      | Some callback => notify q1 callback updatedUpload
      | None => q1
      end
  end.

(** The synchronous prefix of [processUpload]: look the upload up and start
    [fileToBase64], suspending at the first [await]. *)
Definition processUpload (q : UploadQueue) (uid : string) : UploadQueue :=
  match map_get q.(pendingUploads) uid with
  | None => q
  | Some upload => set_inflight q (q.(inflight) ++ [mkTask uid (Reading upload.(file))])
  end.

Definition is_next (q : UploadQueue) (u : PendingUpload) : bool :=
  status_eqb u.(status) Pending && negb (set_has q.(processingUploads) u.(id)).

Definition processQueue (q : UploadQueue) : UploadQueue :=
  if Nat.leb MAX_CONCURRENT_UPLOADS (set_size q.(processingUploads)) then q
  else
    match find (is_next q) (map_values q.(pendingUploads)) with
    | None => q
    | Some nextUpload =>
        let q1 := set_processingUploads q (set_add q.(processingUploads) nextUpload.(id)) in
        let q2 := updateUploadStatus q1 nextUpload.(id) Processing None None in
        processUpload q2 nextUpload.(id)
    end.

(** [addUpload(file, onUpdate)] with the generated [id], [Date.now()] and the
    URL returned by [URL.createObjectURL(file)] as arguments. *)
Definition addUpload (q : UploadQueue) (uid : string) (f : File) (now : Z)
    (thumb : string) (onUpdate : Callback) : UploadQueue :=
  let upload := mkUpload uid f Pending None None now (Some thumb) in
  let q1 := set_pendingUploads q (map_set q.(pendingUploads) uid upload) in
  let q2 := set_callbacks q1 (map_set q1.(callbacks) uid onUpdate) in
  processQueue q2.

(** [if (upload?.thumbnail)]: [undefined] and the empty string are falsy. *)
Definition truthy_thumbnail (o : option PendingUpload) : option string :=
  match o with
  | Some u =>
      match u.(thumbnail) with
      | Some t => if String.eqb t "" then None else Some t
      | None => None
      end
  | None => None
  end.

Definition removeUpload (q : UploadQueue) (uid : string) : UploadQueue :=
  let q1 := match truthy_thumbnail (map_get q.(pendingUploads) uid) with
            | Some t => revokeObjectURL q t
            | None => q
            end in
  let q2 := set_pendingUploads q1 (map_delete q1.(pendingUploads) uid) in
  let q3 := set_callbacks q2 (map_delete q2.(callbacks) uid) in
  set_processingUploads q3 (set_delete q3.(processingUploads) uid).

Definition retryUpload (q : UploadQueue) (uid : string) : UploadQueue :=
  match map_get q.(pendingUploads) uid with
  | None => q
  | Some upload =>
      if negb (status_eqb upload.(status) Failed) then q
      else processQueue (updateUploadStatus q uid Pending None None)
  end.

Definition clearCompleted (q : UploadQueue) : UploadQueue :=
  let completedIds :=
    map fst (filter (fun p => status_eqb (snd p).(status) Completed) q.(pendingUploads)) in
  fold_left removeUpload completedIds q.

Definition getUpload (q : UploadQueue) (uid : string) : option PendingUpload :=
  map_get q.(pendingUploads) uid.

Definition getAllUploads (q : UploadQueue) : list PendingUpload :=
  map_values q.(pendingUploads).

(** ** Settlement of the awaited promises of [processUpload] *)

(** [fileToBase64]: [onload] resolves with the base64 text, [onerror]
    rejects with [new Error('Failed to read file')]. *)
Inductive ReadResult := ReadOk (base64 : string) | ReadError.

(** A thrown value: an [Error] with its [message], or anything else. *)
Inductive Thrown := ErrorObj (message : string) | NonError.

Inductive ExtractResult :=
  | ExtractOk (addresses : list string)
  | ExtractThrew (e : Thrown).

(** [error instanceof Error ? error.message : 'Unknown error occurred'] *)
Definition errorMessage (e : Thrown) : string :=
  match e with
  | ErrorObj m => m
  | NonError => "Unknown error occurred"
  end.

(** [upload.file.type || 'image/jpeg'] *)
Definition mimeTypeOf (f : File) : string :=
  if String.eqb f.(file_type) "" then "image/jpeg" else f.(file_type).

(** The [finally] block. *)
Definition processUpload_finally (q : UploadQueue) (uid : string) : UploadQueue :=
  processQueue (set_processingUploads q (set_delete q.(processingUploads) uid)).

(** [catch (error)] then [finally]. *)
Definition processUpload_catch (q : UploadQueue) (uid : string) (e : Thrown) : UploadQueue :=
  processUpload_finally (updateUploadStatus q uid Failed None (Some (errorMessage e))) uid.

Definition processUpload_afterRead (q : UploadQueue) (uid : string) (f : File)
    (r : ReadResult) : UploadQueue :=
  match r with
  | ReadOk b64 => set_inflight q (q.(inflight) ++ [mkTask uid (Extracting b64 (mimeTypeOf f))])
  | ReadError => processUpload_catch q uid (ErrorObj "Failed to read file")
  end.

Definition processUpload_afterExtract (q : UploadQueue) (uid : string)
    (r : ExtractResult) : UploadQueue :=
  match r with
  | ExtractOk addrs =>
      processUpload_finally (updateUploadStatus q uid Completed (Some addrs) None) uid
  | ExtractThrew e => processUpload_catch q uid e
  end.

(** Taking a suspended continuation out of the pending ones. *)
Fixpoint take_reading (ts : list Task) (uid : string) : option (File * list Task) :=
  match ts with
  | [] => None
  | t :: ts' =>
      match t.(task_stage) with
      | Reading f =>
          if String.eqb t.(task_id) uid then Some (f, ts')
          else option_map (fun p => (fst p, t :: snd p)) (take_reading ts' uid)
      | Extracting _ _ =>
          option_map (fun p => (fst p, t :: snd p)) (take_reading ts' uid)
      end
  end.

Fixpoint take_extracting (ts : list Task) (uid : string) : option (list Task) :=
  match ts with
  | [] => None
  | t :: ts' =>
      match t.(task_stage) with
      | Extracting _ _ =>
          if String.eqb t.(task_id) uid then Some ts'
          else option_map (cons t) (take_extracting ts' uid)
      | Reading _ => option_map (cons t) (take_extracting ts' uid)
      end
  end.

(** ** Events of the event loop *)

Inductive Event :=
  | AddUpload (uid : string) (f : File) (now : Z) (thumb : string) (onUpdate : Callback)
  | RemoveUpload (uid : string)
  | RetryUpload (uid : string)
  | ClearCompleted
  | ReadSettled (uid : string) (r : ReadResult)
  | ExtractSettled (uid : string) (r : ExtractResult).

Definition step (q : UploadQueue) (e : Event) : UploadQueue :=
  match e with
  | AddUpload uid f now thumb cb => addUpload q uid f now thumb cb
  | RemoveUpload uid => removeUpload q uid
  | RetryUpload uid => retryUpload q uid
  | ClearCompleted => clearCompleted q
  | ReadSettled uid r =>
      match take_reading q.(inflight) uid with
      | None => q
      | Some (f, rest) => processUpload_afterRead (set_inflight q rest) uid f r
      end
  | ExtractSettled uid r =>
      match take_extracting q.(inflight) uid with
      | None => q
      | Some rest => processUpload_afterExtract (set_inflight q rest) uid r
      end
  end.

Definition run (q : UploadQueue) (es : list Event) : UploadQueue := fold_left step es q.

(** ** Reachable states

    [addUpload] draws its id from [Date.now()] and [Math.random()], and
    [URL.createObjectURL] returns a fresh non-empty [blob:] URL: a reachable
    state is one obtained from the empty queue by events whose new ids and
    URLs were never issued before. *)

Definition fresh_event (ids urls : list string) (e : Event) : Prop :=
  match e with
  | AddUpload uid _ _ thumb _ => ~ In uid ids /\ ~ In thumb urls /\ thumb <> ""
  | _ => True
  end.

Definition issue_id (ids : list string) (e : Event) : list string :=
  match e with AddUpload uid _ _ _ _ => uid :: ids | _ => ids end.

Definition issue_url (urls : list string) (e : Event) : list string :=
  match e with AddUpload _ _ _ thumb _ => thumb :: urls | _ => urls end.

Inductive reachable : list string -> list string -> UploadQueue -> Prop :=
  | reachable_init : reachable [] [] empty_queue
  | reachable_step ids urls q e :
      reachable ids urls q -> fresh_event ids urls e ->
      reachable (issue_id ids e) (issue_url urls e) (step q e).

(** A decidable freshness check of a whole trace, to build concrete runs. *)
Definition fresh_eventb (ids urls : list string) (e : Event) : bool :=
  match e with
  | AddUpload uid _ _ thumb _ =>
      negb (existsb (String.eqb uid) ids) && negb (existsb (String.eqb thumb) urls)
      && negb (String.eqb thumb "")
  | _ => true
  end.

Fixpoint fresh_traceb (ids urls : list string) (es : list Event) : bool :=
  match es with
  | [] => true
  | e :: es' => fresh_eventb ids urls e && fresh_traceb (issue_id ids e) (issue_url urls e) es'
  end.

Fixpoint issued_ids (ids : list string) (es : list Event) : list string :=
  match es with [] => ids | e :: es' => issued_ids (issue_id ids e) es' end.

Fixpoint issued_urls (urls : list string) (es : list Event) : list string :=
  match es with [] => urls | e :: es' => issued_urls (issue_url urls e) es' end.

(** Auxiliary notions used in the statements. *)

Definition count_tasks (k : string) (ts : list Task) : nat :=
  length (filter (fun t => String.eqb t.(task_id) k) ts).

Definition count_processing (q : UploadQueue) : nat :=
  length (filter (fun u => status_eqb u.(status) Processing) (getAllUploads q)).

Definition is_extracting (t : Task) : bool :=
  match t.(task_stage) with Extracting _ _ => true | Reading _ => false end.

(** Outstanding [extractAddressesFromWebhook] calls, detached ones included. *)
Definition outstanding_extractions (q : UploadQueue) : nat :=
  length (filter is_extracting q.(inflight)).

(** The transitions of the per-job state machine. *)
Definition legal_transition (a b : UploadStatus) : bool :=
  match a, b with
  | Pending, Processing | Processing, Completed
  | Processing, Failed | Failed, Pending => true
  | _, _ => false
  end.

(** [chain s l t]: starting in [s], the statuses [l] are successive legal
    transitions ending in [t]. *)
Fixpoint chain (s : UploadStatus) (l : list UploadStatus) (t : UploadStatus) : Prop :=
  match l with
  | [] => s = t
  | x :: l' => legal_transition s x = true /\ chain x l' t
  end.

(** The notifications of [new] about job [k], as statuses. *)
Definition notified_statuses (k : string) (new : list (Callback * PendingUpload)) :
    list UploadStatus :=
  map (fun p => (snd p).(status)) (filter (fun p => String.eqb (snd p).(id) k) new).

(** ** The invariant of reachable states and the notification discipline *)

Record Inv (ids urls : list string) (q : UploadQueue) : Prop := {
  inv_keys_nodup : NoDup (map fst q.(pendingUploads));
  inv_cb_keys : map fst q.(callbacks) = map fst q.(pendingUploads);
  inv_id_key : forall k u, map_get q.(pendingUploads) k = Some u -> u.(id) = k;
  inv_set_nodup : NoDup q.(processingUploads);
  inv_set_size : set_size q.(processingUploads) <= MAX_CONCURRENT_UPLOADS;
  inv_set_proc : forall k, In k q.(processingUploads) <->
                   exists u, map_get q.(pendingUploads) k = Some u /\ u.(status) = Processing;
  inv_tasks : forall k u, map_get q.(pendingUploads) k = Some u ->
                count_tasks k q.(inflight) = if status_eqb u.(status) Processing then 1 else 0;
  inv_tasks_issued : forall t, In t q.(inflight) -> In t.(task_id) ids;
  inv_keys_issued : forall k, In k (map fst q.(pendingUploads)) -> In k ids;
  inv_thumb : forall k u, map_get q.(pendingUploads) k = Some u ->
                exists t, u.(thumbnail) = Some t /\ t <> "" /\ In t urls /\ ~ In t q.(revoked);
  inv_thumb_distinct : forall k1 k2 u1 u2,
                map_get q.(pendingUploads) k1 = Some u1 -> map_get q.(pendingUploads) k2 = Some u2 ->
                u1.(thumbnail) = u2.(thumbnail) -> k1 = k2;
  inv_revoked_nodup : NoDup q.(revoked);
  inv_revoked_issued : forall t, In t q.(revoked) -> In t urls
}.

Definition Struct (q : UploadQueue) : Prop :=
  NoDup (map fst q.(pendingUploads)) /\ map fst q.(callbacks) = map fst q.(pendingUploads) /\
  (forall k u, map_get q.(pendingUploads) k = Some u -> u.(id) = k).

(** Steps that keep the job keys and the callbacks. *)
Definition frame (q q' : UploadQueue) : Prop :=
  map fst q'.(pendingUploads) = map fst q.(pendingUploads) /\ q'.(callbacks) = q.(callbacks).

(** [notif_ok q q']: the notifications [q'] adds to [q] go, for each job, to
    the callback registered for it, and form, job by job, a chain of legal
    transitions from its status in [q] to its status in [q'] (from [Pending],
    the status of creation, for a job created in between); a job absent from
    [q'] receives none. *)
Definition notif_ok (q q' : UploadQueue) : Prop :=
  exists new,
    q'.(notifications) = q.(notifications) ++ new /\
    (forall p, In p new -> map_get q'.(callbacks) (snd p).(id) = Some (fst p)) /\
    forall k,
      match map_get q.(pendingUploads) k, map_get q'.(pendingUploads) k with
      | Some u, Some u' =>
          chain u.(status) (notified_statuses k new) u'.(status) /\
          map_get q'.(callbacks) k = map_get q.(callbacks) k
      | None, Some u' => chain Pending (notified_statuses k new) u'.(status)
      | _, None => notified_statuses k new = []
      end.

Definition quiet (q q' : UploadQueue) : Prop :=
  q'.(notifications) = q.(notifications) /\
  forall k, map_get q'.(pendingUploads) k = None \/
     (map_get q'.(pendingUploads) k = map_get q.(pendingUploads) k /\
      map_get q'.(callbacks) k = map_get q.(callbacks) k).

(** The state of [addUpload] just before its [processQueue()]. *)
Definition addUpload_pre (q : UploadQueue) (uid : string) (f : File) (now : Z)
    (thumb : string) (onUpdate : Callback) : UploadQueue :=
  let upload := mkUpload uid f Pending None None now (Some thumb) in
  let q1 := set_pendingUploads q (map_set q.(pendingUploads) uid upload) in
  set_callbacks q1 (map_set q1.(callbacks) uid onUpdate).

(** The [finally] of a settled attempt of a live job: its record holds the
    outcome, its slot is released, then [processQueue()] runs. *)
Definition settled_as (q' : UploadQueue) (k : string) (u' : PendingUpload) : Prop :=
  exists q1, q' = processQueue q1 /\ ~ In k q1.(processingUploads) /\
    getUpload q1 k = Some u' /\ getUpload q' k = Some u' /\ ~ In k q'.(processingUploads).

Definition revoked_thumb (m : JsMap PendingUpload) (k : string) : list string :=
  match truthy_thumbnail (map_get m k) with Some t => [t] | None => [] end.

Definition is_completed (p : string * PendingUpload) : bool := status_eqb (snd p).(status) Completed.

(** ** Concrete runs *)

Definition demo_file : File := mkFile "stops.jpg" "image/jpeg".

Definition demo_add (uid : string) (n : nat) : Event :=
  AddUpload uid demo_file (Z.of_nat n) ("blob:" ++ uid)%string n.

Definition six_uploads : list Event :=
  [demo_add "upload_1" 1; demo_add "upload_2" 2; demo_add "upload_3" 3;
   demo_add "upload_4" 4; demo_add "upload_5" 5; demo_add "upload_6" 6].

Definition read_ok (uid : string) : Event := ReadSettled uid (ReadOk "aGVsbG8=").

(** Five uploads in flight with their extraction calls outstanding, the
    first one removed, then a seventh upload is submitted and the sixth one
    gets its file read. *)
Definition remove_in_flight_run : list Event :=
  six_uploads ++
  [read_ok "upload_1"; read_ok "upload_2"; read_ok "upload_3"; read_ok "upload_4";
   read_ok "upload_5"; RemoveUpload "upload_1"; demo_add "upload_7" 7; read_ok "upload_6"].

(** [upload_1] removed while its extraction call is outstanding. *)
Definition removed_while_extracting : list Event :=
  six_uploads ++ [read_ok "upload_1"; RemoveUpload "upload_1"].

(** [upload_1] fails while [upload_7] waits; it is retried while all slots are
    taken, then [upload_2] completes. *)
Definition retry_before_run : list Event :=
  six_uploads ++ [demo_add "upload_7" 7; ReadSettled "upload_1" ReadError].

Definition retry_after_run : list Event :=
  retry_before_run ++
  [RetryUpload "upload_1"; read_ok "upload_2"; ExtractSettled "upload_2" (ExtractOk [])].

Definition status_of (q : UploadQueue) (uid : string) : option UploadStatus :=
  option_map status (getUpload q uid).

(** The record of a demo upload in a given status, before any outcome. *)
Definition demo_record (uid : string) (n : nat) (st : UploadStatus) : PendingUpload :=
  mkUpload uid demo_file st None None (Z.of_nat n) (Some ("blob:" ++ uid)%string).

(** [upload_1] removed while in flight, without a later [processQueue()]:
    a slot is free and [upload_6] and [upload_7] wait. *)
Definition removed_no_admission : list Event :=
  six_uploads ++ [demo_add "upload_7" 7; RemoveUpload "upload_1"].

(** * Address extraction through the webhook (src/unnamed/part_001)

    A JavaScript string is a sequence of UTF-16 code units. *)

Definition jstr := list N.

Definition js (s : string) : jstr := map (fun c => Ascii.N_of_ascii c) (list_ascii_of_string s).

Fixpoint jstr_eqb (a b : jstr) : bool :=
  match a, b with
  | [], [] => true
  | x :: a', y :: b' => N.eqb x y && jstr_eqb a' b'
  | _, _ => false
  end.

(** The code units [String.prototype.trim] removes: WhiteSpace (TAB, VT, FF,
    SP, NBSP, ZWNBSP and the Zs category) and LineTerminator (LF, CR, LS, PS). *)
Definition is_js_space (c : N) : bool :=
  N.eqb c 9 || N.eqb c 10 || N.eqb c 11 || N.eqb c 12 || N.eqb c 13 || N.eqb c 32 ||
  N.eqb c 160 || N.eqb c 5760 || (N.leb 8192 c && N.leb c 8202) ||
  N.eqb c 8232 || N.eqb c 8233 || N.eqb c 8239 || N.eqb c 8287 || N.eqb c 12288 ||
  N.eqb c 65279.

Fixpoint drop_spaces (s : jstr) : jstr :=
  match s with
  | [] => []
  | c :: s' => if is_js_space c then drop_spaces s' else s
  end.

(** [s.trim()] *)
Definition js_trim (s : jstr) : jstr := rev (drop_spaces (rev (drop_spaces s))).

(** [s.trim().length > 0] *)
Definition nonblank (s : jstr) : bool := Nat.ltb 0 (length (js_trim s)).

Fixpoint jstr_prefixb (p s : jstr) : bool :=
  match p, s with
  | [], _ => true
  | x :: p', y :: s' => N.eqb x y && jstr_prefixb p' s'
  | _ :: _, [] => false
  end.

(** [s.includes(p)] *)
Fixpoint js_includes (s p : jstr) : bool :=
  jstr_prefixb p s || match s with [] => false | _ :: s' => js_includes s' p end.

(** [String(n)] for a non-negative integer [n]. *)
Fixpoint digits_of (fuel n : nat) (acc : jstr) : jstr :=
  let acc' := N.of_nat (48 + n mod 10) :: acc in
  match fuel with
  | 0 => acc'
  | S fuel' => if Nat.ltb n 10 then acc' else digits_of fuel' (n / 10) acc'
  end.

Definition nat_to_jstr (n : nat) : jstr := digits_of n n [].

Fixpoint join_comma (l : list jstr) : jstr :=
  match l with
  | [] => []
  | [x] => x
  | x :: l' => x ++ [44%N] ++ join_comma l'
  end.

(** A value produced by [JSON.parse].  A number is kept as the text
    [String(n)] gives for it. *)
#[warnings="-register-all"]
Inductive Json :=
  | JNull
  | JBool (b : bool)
  | JNum (repr : jstr)
  | JStr (s : jstr)
  | JArr (items : list Json)
  | JObj (props : list (jstr * Json)).

(** [o[k]] on a parsed object: an own property, the last one of a duplicated
    key; the keys read here are not properties of [Object.prototype]. *)
Fixpoint obj_get (props : list (jstr * Json)) (k : jstr) : option Json :=
  match props with
  | [] => None
  | (k', v) :: props' =>
      match obj_get props' k with
      | Some w => Some w
      | None => if jstr_eqb k' k then Some v else None
      end
  end.

(** Truthiness of a property read ([None] is [undefined]). *)
Definition js_truthy (v : option Json) : bool :=
  match v with
  | None | Some JNull => false
  | Some (JBool b) => b
  | Some (JNum r) => negb (jstr_eqb r (js "0"))
  | Some (JStr s) => negb (Nat.eqb (length s) 0)
  | Some (JArr _) | Some (JObj _) => true
  end.

(** [ToString(v)]; [None] is the [TypeError] thrown for an object with an own
    [toString] property (not callable, so [valueOf] is tried and returns the
    object itself).  An array is joined with commas, [null] giving the empty
    string. *)
Fixpoint json_to_string (v : Json) : option jstr :=
  match v with
  | JNull => Some (js "null")
  | JBool true => Some (js "true")
  | JBool false => Some (js "false")
  | JNum r => Some r
  | JStr s => Some s
  | JArr items =>
      let fix go (l : list Json) : option (list jstr) :=
        match l with
        | [] => Some []
        | JNull :: l' => option_map (cons []) (go l')
        | x :: l' =>
            match json_to_string x, go l' with
            | Some s, Some ss => Some (s :: ss)
            | _, _ => None
            end
        end in
      option_map join_comma (go items)
  | JObj props =>
      match obj_get props (js "toString") with
      | Some _ => None
      | None => Some (js "[object Object]")
      end
  end.

(** A thrown value: an instance of [Error] (its [name] and [message]), or
    anything else. *)
Inductive JsThrown := JsError (name message : jstr) | JsNonError.

(** [new Error(message)] *)
Definition new_Error (message : jstr) : JsThrown := JsError (js "Error") message.

(** The settlement of [response.json()]. *)
Inductive BodyResult := BodyParsed (v : Json) | BodyRejected (e : JsThrown).

(** The settlement of [fetch(...)]: a rejection (network error, or the
    [AbortError] of the timeout), or a response. *)
Inductive FetchResult :=
  | FetchRejected (e : JsThrown)
  | FetchResponded (status : nat) (statusText : jstr) (body : BodyResult).

(** [response.ok] *)
Definition response_ok (status : nat) : bool := Nat.leb 200 status && Nat.ltb status 300.

(** The way the [try] block of one call ends: a retry after a delay
    ([return extractAddressesFromWebhook(...)] after the [setTimeout]), a
    [return], or a [throw]. *)
Inductive TryOutcome := TRetry (delay : nat) | TReturn (addrs : list jstr) | TThrow (e : JsThrown).

(** [typeof item === 'string' && item.trim().length > 0] *)
Definition valid_string (v : Json) : bool :=
  match v with JStr s => nonblank s | _ => false end.

Definition is_string (v : Json) : bool :=
  match v with JStr _ => true | _ => false end.

Definition strings_of (l : list Json) : list jstr :=
  flat_map (fun v => match v with JStr s => [s] | _ => [] end) l.

Section Webhook.

(** The message of the [TypeError] of a failed [ToString]; it is chosen by
    the engine. *)
Variable type_error_message : jstr.

(** [result.error || result.message || 'Unknown error from webhook'] *)
Definition error_message (props : list (jstr * Json)) : option Json :=
  if js_truthy (obj_get props (js "error")) then obj_get props (js "error")
  else if js_truthy (obj_get props (js "message")) then obj_get props (js "message")
  else Some (JStr (js "Unknown error from webhook")).

(** The [addresses] array taken from [result.addresses], else from
    [result.data]; [None] is the [else] branch that throws. *)
Definition select_addresses (props : list (jstr * Json)) : option (list Json) :=
  let fromAddresses :=
    if js_truthy (obj_get props (js "addresses")) then
      match obj_get props (js "addresses") with Some (JArr a) => Some a | _ => None end
    else None in
  match fromAddresses with
  | Some a => Some a
  | None =>
      if js_truthy (obj_get props (js "data")) then
        match obj_get props (js "data") with Some (JArr a) => Some a | _ => None end
      else None
  end.

(** [result.success === false] *)
Definition success_false (props : list (jstr * Json)) : bool :=
  match obj_get props (js "success") with Some (JBool false) => true | _ => false end.

Definition handle_result (retryCount : nat) (result : Json) : TryOutcome :=
  match result with
  | JArr items =>
      let addresses := strings_of (filter valid_string items) in
      if Nat.eqb (length addresses) 0 && Nat.ltb retryCount 2 then TRetry 1000
      else TReturn addresses
  | JObj props =>
      if success_false props then
        match option_map json_to_string (error_message props) with
        | Some (Some m) => TThrow (new_Error m)
        | _ => TThrow (JsError (js "TypeError") type_error_message)
        end
      else
        match select_addresses props with
        | None => TThrow (new_Error (js "Unexpected response format from webhook"))
        | Some a =>
            if negb (forallb is_string a) then TThrow (new_Error (js "Invalid address format in response"))
            else
              let validAddresses := filter nonblank (strings_of a) in
              if Nat.eqb (length validAddresses) 0 && Nat.ltb retryCount 2 then TRetry 1000
              else TReturn validAddresses
        end
  | _ => TThrow (new_Error (js "Unexpected response format from webhook"))
  end.

(** The [try] block after [fetch] has settled. *)
Definition try_block (retryCount : nat) (r : FetchResult) : TryOutcome :=
  match r with
  | FetchRejected e => TThrow e
  | FetchResponded status statusText body =>
      if negb (response_ok status) then
        if Nat.eqb status 429 && Nat.ltb retryCount 2 then TRetry (2 ^ retryCount * 1000)
        else TThrow (new_Error (js "Webhook request failed: " ++ nat_to_jstr status ++ js " " ++ statusText))
      else
        match body with
        | BodyRejected e => TThrow e
        | BodyParsed result => handle_result retryCount result
        end
  end.

(** The [catch] block. *)
Definition catch_error (error : JsThrown) : JsThrown :=
  match error with
  | JsError name message =>
      if jstr_eqb name (js "AbortError") then new_Error (js "Request timeout: Webhook took too long to respond")
      else if js_includes message (js "fetch") then new_Error (js "Network error: Could not connect to webhook")
      else error
  | JsNonError => new_Error (js "Could not extract addresses from image via webhook.")
  end.

Inductive WebhookEffect := Fetch (data mimeType : jstr) | Sleep (ms : nat).

(** The settlement of the returned promise: resolved, rejected, or still
    waiting on a [fetch] whose settlement is not in the input. *)
Inductive WebhookOutcome := Resolved (addrs : list jstr) | Rejected (e : JsThrown) | Awaiting.

(** [extractAddressesFromWebhook(base64Image, mimeType, retryCount)] when the
    successive [fetch] calls settle as [responses]: the requests and timers it
    issues and how its promise settles.  The promise of a retry is returned
    from inside the [try] without [await], so its rejection is passed on
    without going through this call's [catch]. *)
Fixpoint extractAddressesFromWebhook (base64Image mimeType : jstr) (retryCount : nat)
    (responses : list FetchResult) : list WebhookEffect * WebhookOutcome :=
  match responses with
  | [] => ([Fetch base64Image mimeType], Awaiting)
  | r :: rest =>
      match try_block retryCount r with
      | TRetry delay =>
          let (effects, outcome) := extractAddressesFromWebhook base64Image mimeType (S retryCount) rest in
          (Fetch base64Image mimeType :: Sleep delay :: effects, outcome)
      | TReturn addrs => ([Fetch base64Image mimeType], Resolved addrs)
      | TThrow e => ([Fetch base64Image mimeType], Rejected (catch_error e))
      end
  end.

End Webhook.

Definition count_fetches (effects : list WebhookEffect) : nat :=
  length (filter (fun e => match e with Fetch _ _ => true | Sleep _ => false end) effects).

Definition total_sleep (effects : list WebhookEffect) : nat :=
  fold_right (fun e acc => match e with Fetch _ _ => acc | Sleep ms => ms + acc end) 0 effects.

(** ** [fileToBase64]: [result.split(',')[1]] *)

(** [s.split(c)] for a separator of one code unit. *)
Fixpoint js_split (c : N) (s : jstr) : list jstr :=
  match s with
  | [] => [[]]
  | x :: s' =>
      if N.eqb x c then [] :: js_split c s'
      else match js_split c s' with
           | [] => [[x]]
           | h :: t => (x :: h) :: t
           end
  end.

(** The value [fileToBase64] resolves with for the data URL [result];
    [None] is [undefined]. *)
Definition fileToBase64_onload (result : jstr) : option jstr := nth_error (js_split 44 result) 1.

(** ** The list of uploads of the application (src/App.tsx) *)

(** The updater the callback passed to [addUpload] in [handleImageUpload]
    gives to [setPendingUploads]. *)
Definition app_upsert (prev : list PendingUpload) (upload : PendingUpload) : list PendingUpload :=
  match find (fun u => String.eqb u.(id) upload.(id)) prev with
  | Some _ => map (fun u => if String.eqb u.(id) upload.(id) then upload else u) prev
  | None => prev ++ [upload]
  end.

(** The list of uploads after [handleImageUpload(file)]: the updaters queued
    by the callbacks invoked during [addUpload] (every upload's callback is
    such a closure), then the append of [newUpload], applied in order.  [now']
    and [thumb'] are the second [Date.now()] and [URL.createObjectURL(file)]. *)
Definition handleImageUpload (q : UploadQueue) (prev : list PendingUpload) (uid : string) (f : File)
    (now : Z) (thumb : string) (cb : Callback) (now' : Z) (thumb' : string)
    : UploadQueue * list PendingUpload :=
  let q' := addUpload q uid f now thumb cb in
  let updates := map snd (skipn (length q.(notifications)) q'.(notifications)) in
  let newUpload := mkUpload uid f Pending None None now' (Some thumb') in
  (q', fold_left app_upsert updates prev ++ [newUpload]).

(** A request of the concrete runs below. *)

Definition demo_image : jstr := js "aGVsbG8=".
Definition demo_mime : jstr := js "image/jpeg".

(** ** Lemmas on the JavaScript containers *)

Lemma eqb_refl_s (s : string) : String.eqb s s = true.
Proof. apply String.eqb_refl. Qed.

Lemma eqb_neq_s (a b : string) : a <> b -> String.eqb a b = false.
Proof. intro H. apply String.eqb_neq. exact H. Qed.

Lemma eqb_sym_s (a b : string) : String.eqb a b = String.eqb b a.
Proof. apply String.eqb_sym. Qed.

Ltac eqbs :=
  repeat match goal with
  | H : String.eqb _ _ = true |- _ => apply String.eqb_eq in H; subst
  | |- context [String.eqb ?a ?a] => rewrite eqb_refl_s
  end.

Section MapLemmas.
Context {V : Type}.
Implicit Types (m : JsMap V) (k : string) (v : V).

Lemma map_has_In m k : map_has m k = true <-> In k (map fst m).
Proof.
  induction m as [|[k' v'] m IH]; simpl; [split; discriminate + tauto|].
  rewrite orb_true_iff, IH, String.eqb_eq. split; intros [H|H]; auto.
Qed.

Lemma map_get_None m k : map_get m k = None <-> ~ In k (map fst m).
Proof.
  induction m as [|[k' v'] m IH]; simpl; [tauto|].
  destruct (String.eqb k' k) eqn:E; eqbs.
  - split; [discriminate|]. intro H; exfalso; apply H; auto.
  - apply String.eqb_neq in E. rewrite IH. intuition.
Qed.

Lemma map_get_In m k v : map_get m k = Some v -> In (k, v) m.
Proof.
  induction m as [|[k' v'] m IH]; simpl; [discriminate|].
  destruct (String.eqb k' k) eqn:E; eqbs; [injection 1 as ->; auto|auto].
Qed.

Lemma map_get_In_NoDup m k v : NoDup (map fst m) -> In (k, v) m -> map_get m k = Some v.
Proof.
  induction m as [|[k' v'] m IH]; simpl; [tauto|].
  intros Hnd Hin. inversion Hnd as [|? ? Hn Hnd']; subst.
  destruct Hin as [Heq|Hin].
  - injection Heq as -> ->. rewrite eqb_refl_s. reflexivity.
  - destruct (String.eqb k' k) eqn:E; eqbs; [|auto].
    exfalso. apply Hn. apply (in_map fst) in Hin. exact Hin.
Qed.

Lemma map_get_replace m k k' v :
  map_get (map_replace m k v) k' =
  if String.eqb k k' then (if map_has m k then Some v else None) else map_get m k'.
Proof.
  induction m as [|[k0 v0] m IH]; simpl.
  - destruct (String.eqb k k'); reflexivity.
  - destruct (String.eqb k0 k) eqn:E1; simpl.
    + apply String.eqb_eq in E1; subst k0. destruct (String.eqb k k'); reflexivity.
    + rewrite IH. destruct (String.eqb k0 k') eqn:E2; eqbs; simpl.
      * rewrite eqb_sym_s, E1. reflexivity.
      * reflexivity.
Qed.

Lemma map_get_app m m' k :
  map_get (m ++ m') k = match map_get m k with Some v => Some v | None => map_get m' k end.
Proof.
  induction m as [|[k0 v0] m IH]; simpl; [reflexivity|].
  destruct (String.eqb k0 k); auto.
Qed.

Lemma map_get_set m k v k' :
  map_get (map_set m k v) k' = if String.eqb k k' then Some v else map_get m k'.
Proof.
  unfold map_set. destruct (map_has m k) eqn:H.
  - rewrite map_get_replace, H. reflexivity.
  - rewrite map_get_app. destruct (String.eqb k k') eqn:E; eqbs.
    + assert (map_get m k' = None) as ->; [|simpl; rewrite eqb_refl_s; reflexivity].
      apply map_get_None. rewrite <- map_has_In, H. discriminate.
    + destruct (map_get m k'); [reflexivity|]. simpl. rewrite E. reflexivity.
Qed.

Lemma map_keys_replace m k v : map fst (map_replace m k v) = map fst m.
Proof.
  induction m as [|[k0 v0] m IH]; simpl; [reflexivity|].
  destruct (String.eqb k0 k); simpl; congruence.
Qed.

Lemma map_keys_set m k v :
  map fst (map_set m k v) = if map_has m k then map fst m else map fst m ++ [k].
Proof.
  unfold map_set. destruct (map_has m k).
  - apply map_keys_replace.
  - rewrite map_app. reflexivity.
Qed.

Lemma map_get_delete m k k' :
  map_get (map_delete m k) k' = if String.eqb k k' then None else map_get m k'.
Proof.
  unfold map_delete. induction m as [|[k0 v0] m IH]; simpl.
  - destruct (String.eqb k k'); reflexivity.
  - destruct (String.eqb k0 k) eqn:E; simpl.
    + apply String.eqb_eq in E; subst k0. rewrite IH. destruct (String.eqb k k'); reflexivity.
    + rewrite IH. destruct (String.eqb k0 k') eqn:E2; eqbs; [|reflexivity].
      rewrite eqb_sym_s, E. reflexivity.
Qed.

Lemma map_keys_delete m k :
  map fst (map_delete m k) = filter (fun k' => negb (String.eqb k' k)) (map fst m).
Proof.
  unfold map_delete. induction m as [|[k0 v0] m IH]; simpl; [reflexivity|].
  destruct (String.eqb k0 k); simpl; congruence.
Qed.

Lemma map_delete_absent m k : ~ In k (map fst m) -> map_delete m k = m.
Proof.
  unfold map_delete. induction m as [|[k0 v0] m IH]; simpl; [reflexivity|].
  intro H. rewrite eqb_neq_s by (intro; subst; auto). simpl. f_equal. auto.
Qed.

End MapLemmas.

Lemma set_has_In (s : JsSet) x : set_has s x = true <-> In x s.
Proof.
  unfold set_has. rewrite existsb_exists. split.
  - intros [y [Hy E]]. apply String.eqb_eq in E. subst. exact Hy.
  - intro H. exists x. split; [exact H|apply eqb_refl_s].
Qed.

Lemma In_set_add (s : JsSet) x y : In y (set_add s x) <-> y = x \/ In y s.
Proof.
  unfold set_add. destruct (set_has s x) eqn:H.
  - apply set_has_In in H. split; [auto|]. intros [->|]; auto.
  - rewrite in_app_iff. simpl. intuition.
Qed.

Lemma NoDup_set_add (s : JsSet) x : NoDup s -> NoDup (set_add s x).
Proof.
  unfold set_add. destruct (set_has s x) eqn:H; [auto|]. intro Hs.
  apply NoDup_app; auto; [constructor; [simpl; tauto|constructor]|].
  intros y Hy Hy'. simpl in Hy'. destruct Hy' as [<-|[]].
  assert (set_has s x = true) by (apply set_has_In; exact Hy). congruence.
Qed.

Lemma set_add_size (s : JsSet) x : set_size (set_add s x) <= S (set_size s).
Proof.
  unfold set_add, set_size. destruct (set_has s x); [lia|].
  rewrite length_app. simpl. lia.
Qed.

Lemma In_set_delete (s : JsSet) x y : In y (set_delete s x) <-> In y s /\ y <> x.
Proof.
  unfold set_delete. rewrite filter_In, negb_true_iff, String.eqb_neq. tauto.
Qed.

Lemma set_delete_size (s : JsSet) x : set_size (set_delete s x) <= set_size s.
Proof. unfold set_delete, set_size. apply filter_length_le. Qed.

Lemma NoDup_set_delete (s : JsSet) x : NoDup s -> NoDup (set_delete s x).
Proof. apply NoDup_filter. Qed.

Lemma set_delete_absent (s : JsSet) x : ~ In x s -> set_delete s x = s.
Proof.
  unfold set_delete. induction s as [|y s IH]; simpl; [reflexivity|].
  intro H. rewrite eqb_neq_s by (intro; subst; auto). simpl. f_equal. auto.
Qed.

(** *** [updateUploadStatus] *)

Section Update.
Variables (q : UploadQueue) (k : string) (st : UploadStatus)
          (addrs : option (list string)) (err : option string).
Let q' := updateUploadStatus q k st addrs err.

Lemma upd_get k' :
  map_get q'.(pendingUploads) k' =
  if String.eqb k k' then option_map (fun u => with_status u st addrs err) (map_get q.(pendingUploads) k)
  else map_get q.(pendingUploads) k'.
Proof.
  subst q'. unfold updateUploadStatus, notify, set_pendingUploads; simpl.
  destruct (map_get q.(pendingUploads) k) as [u|] eqn:Hu.
  - destruct (map_get (callbacks q) k); simpl; rewrite map_get_set; reflexivity.
  - destruct (String.eqb k k') eqn:E; [|reflexivity]. eqbs. exact Hu.
Qed.

Lemma upd_keys : map fst q'.(pendingUploads) = map fst q.(pendingUploads).
Proof.
  subst q'. unfold updateUploadStatus, notify, set_pendingUploads; simpl.
  destruct (map_get q.(pendingUploads) k) as [u|] eqn:Hu; [|reflexivity].
  assert (Hh : map_has q.(pendingUploads) k = true).
  { apply map_has_In. apply map_get_In in Hu. apply (in_map fst) in Hu. exact Hu. }
  destruct (map_get (callbacks q) k); simpl; rewrite map_keys_set, Hh; reflexivity.
Qed.

Lemma upd_processing : q'.(processingUploads) = q.(processingUploads).
Proof.
  subst q'. unfold updateUploadStatus, notify, set_pendingUploads; simpl.
  destruct (map_get q.(pendingUploads) k); [destruct (map_get (callbacks q) k)|]; reflexivity.
Qed.

Lemma upd_callbacks : q'.(callbacks) = q.(callbacks).
Proof.
  subst q'. unfold updateUploadStatus, notify, set_pendingUploads; simpl.
  destruct (map_get q.(pendingUploads) k); [destruct (map_get (callbacks q) k)|]; reflexivity.
Qed.

Lemma upd_inflight : q'.(inflight) = q.(inflight).
Proof.
  subst q'. unfold updateUploadStatus, notify, set_pendingUploads; simpl.
  destruct (map_get q.(pendingUploads) k); [destruct (map_get (callbacks q) k)|]; reflexivity.
Qed.

Lemma upd_revoked : q'.(revoked) = q.(revoked).
Proof.
  subst q'. unfold updateUploadStatus, notify, set_pendingUploads; simpl.
  destruct (map_get q.(pendingUploads) k); [destruct (map_get (callbacks q) k)|]; reflexivity.
Qed.

Lemma upd_notifications :
  q'.(notifications) = q.(notifications) ++
    match map_get q.(pendingUploads) k, map_get q.(callbacks) k with
    | Some u, Some cb => [(cb, with_status u st addrs err)]
    | _, _ => []
    end.
Proof.
  subst q'. unfold updateUploadStatus, notify, set_pendingUploads; simpl.
  destruct (map_get q.(pendingUploads) k); [destruct (map_get (callbacks q) k)|];
    simpl; rewrite ?app_nil_r; reflexivity.
Qed.

End Update.

(** *** [processUpload] *)

Section ProcessUpload.
Variables (q : UploadQueue) (k : string).
Let q' := processUpload q k.

Lemma pu_unchanged :
  q'.(pendingUploads) = q.(pendingUploads) /\ q'.(processingUploads) = q.(processingUploads) /\
  q'.(callbacks) = q.(callbacks) /\ q'.(notifications) = q.(notifications) /\
  q'.(revoked) = q.(revoked).
Proof.
  subst q'. unfold processUpload. destruct (map_get q.(pendingUploads) k); repeat split.
Qed.

Lemma pu_inflight :
  q'.(inflight) = q.(inflight) ++
    match map_get q.(pendingUploads) k with Some u => [mkTask k (Reading u.(file))] | None => [] end.
Proof.
  subst q'. unfold processUpload. destruct (map_get q.(pendingUploads) k); simpl;
    rewrite ?app_nil_r; reflexivity.
Qed.

End ProcessUpload.

(** *** [processQueue] *)

Lemma pq_cases q :
  processQueue q = q \/
  exists u, set_size q.(processingUploads) < MAX_CONCURRENT_UPLOADS /\
    find (is_next q) (map_values q.(pendingUploads)) = Some u /\
    processQueue q =
      processUpload
        (updateUploadStatus (set_processingUploads q (set_add q.(processingUploads) u.(id)))
           u.(id) Processing None None) u.(id).
Proof.
  unfold processQueue. destruct (Nat.leb MAX_CONCURRENT_UPLOADS (set_size q.(processingUploads))) eqn:H;
    [auto|].
  apply Nat.leb_gt in H.
  destruct (find (is_next q) (map_values q.(pendingUploads))) as [u|] eqn:F; [|auto].
  right. exists u. auto.
Qed.

Lemma count_tasks_app k ts ts' : count_tasks k (ts ++ ts') = count_tasks k ts + count_tasks k ts'.
Proof. unfold count_tasks. rewrite filter_app, length_app. reflexivity. Qed.

Lemma count_tasks_one k k' s : count_tasks k [mkTask k' s] = if String.eqb k' k then 1 else 0.
Proof. unfold count_tasks. simpl. destruct (String.eqb k' k); reflexivity. Qed.

Lemma count_tasks_In k ts : count_tasks k ts <> 0 -> exists t, In t ts /\ t.(task_id) = k.
Proof.
  unfold count_tasks. intro H. destruct (filter _ ts) as [|t l] eqn:E; [simpl in H; lia|].
  exists t. assert (Ht : In t (filter (fun t => String.eqb (task_id t) k) ts)) by (rewrite E; left; auto).
  apply filter_In in Ht. destruct Ht as [Ht Hk]. apply String.eqb_eq in Hk. auto.
Qed.

Lemma take_reading_spec ts k f rest :
  take_reading ts k = Some (f, rest) ->
  count_tasks k ts = S (count_tasks k rest) /\
  (forall k', k' <> k -> count_tasks k' rest = count_tasks k' ts) /\
  (forall t, In t rest -> In t ts) /\
  (forall t, In t ts -> In t rest \/ t.(task_id) = k) /\
  outstanding_extractions (set_inflight empty_queue rest) =
  outstanding_extractions (set_inflight empty_queue ts).
Proof.
  unfold outstanding_extractions, count_tasks; simpl.
  revert f rest. induction ts as [|t ts IH]; simpl; intros f rest H; [discriminate|].
  destruct t as [tid [f0|b m]]; simpl in *.
  - destruct (String.eqb tid k) eqn:E.
    + injection H as -> ->. eqbs. simpl.
      repeat split; auto.
      * intros k' Hk'. rewrite eqb_neq_s by auto. reflexivity.
      * intros t [<-|Ht]; auto.
    + destruct (take_reading ts k) as [[f1 r1]|] eqn:T; [|discriminate].
      injection H as <- <-. simpl. destruct (IH _ _ eq_refl) as (H1 & H2 & H3 & H4 & H5).
      rewrite E. simpl. repeat split.
      * exact H1.
      * intros k' Hk'. destruct (String.eqb tid k'); simpl; auto.
      * intros t [<-|Ht]; auto.
      * intros t [<-|Ht]; simpl; auto. destruct (H4 t Ht); auto.
      * exact H5.
  - destruct (take_reading ts k) as [[f1 r1]|] eqn:T; [|discriminate].
    injection H as <- <-. simpl. destruct (IH _ _ eq_refl) as (H1 & H2 & H3 & H4 & H5).
    destruct (String.eqb tid k) eqn:E; simpl; repeat split.
    + lia.
    + intros k' Hk'. destruct (String.eqb tid k'); simpl; auto.
    + intros t [<-|Ht]; auto.
    + intros t [<-|Ht]; simpl; auto. destruct (H4 t Ht); auto.
    + lia.
    + exact H1.
    + intros k' Hk'. destruct (String.eqb tid k'); simpl; auto.
    + intros t [<-|Ht]; auto.
    + intros t [<-|Ht]; simpl; auto. destruct (H4 t Ht); auto.
    + lia.
Qed.

Lemma take_extracting_spec ts k rest :
  take_extracting ts k = Some rest ->
  count_tasks k ts = S (count_tasks k rest) /\
  (forall k', k' <> k -> count_tasks k' rest = count_tasks k' ts) /\
  (forall t, In t rest -> In t ts) /\
  (forall t, In t ts -> In t rest \/ t.(task_id) = k).
Proof.
  unfold count_tasks.
  revert rest. induction ts as [|t ts IH]; simpl; intros rest H; [discriminate|].
  destruct t as [tid [f0|b m]]; simpl in *.
  - destruct (take_extracting ts k) as [r1|] eqn:T; [|discriminate].
    injection H as <-. simpl. destruct (IH _ eq_refl) as (H1 & H2 & H3 & H4).
    destruct (String.eqb tid k) eqn:E; simpl; repeat split.
    + lia.
    + intros k' Hk'. destruct (String.eqb tid k'); simpl; auto.
    + intros t [<-|Ht]; auto.
    + intros t [<-|Ht]; simpl; auto. destruct (H4 t Ht); auto.
    + exact H1.
    + intros k' Hk'. destruct (String.eqb tid k'); simpl; auto.
    + intros t [<-|Ht]; auto.
    + intros t [<-|Ht]; simpl; auto. destruct (H4 t Ht); auto.
  - destruct (String.eqb tid k) eqn:E.
    + injection H as <-. eqbs. simpl.
      repeat split; auto.
      * intros k' Hk'. rewrite eqb_neq_s by auto. reflexivity.
      * intros t [<-|Ht]; auto.
    + destruct (take_extracting ts k) as [r1|] eqn:T; [|discriminate].
      injection H as <-. simpl. destruct (IH _ eq_refl) as (H1 & H2 & H3 & H4).
      rewrite E. simpl. repeat split.
      * exact H1.
      * intros k' Hk'. destruct (String.eqb tid k'); simpl; auto.
      * intros t [<-|Ht]; auto.
      * intros t [<-|Ht]; simpl; auto. destruct (H4 t Ht); auto.
Qed.

Lemma take_extracting_outstanding ts k rest :
  take_extracting ts k = Some rest ->
  length (filter is_extracting ts) = S (length (filter is_extracting rest)).
Proof.
  revert rest. induction ts as [|t ts IH]; simpl; intros rest H; [discriminate|].
  destruct t as [tid [f0|b m]]; unfold is_extracting in *; simpl in *.
  - destruct (take_extracting ts k) as [r1|] eqn:T; [|discriminate].
    injection H as <-. simpl. apply IH. reflexivity.
  - destruct (String.eqb tid k).
    + injection H as <-. reflexivity.
    + destruct (take_extracting ts k) as [r1|] eqn:T; [|discriminate].
      injection H as <-. simpl. f_equal. apply IH. reflexivity.
Qed.

(** ** The invariant of reachable states *)

Lemma status_eqb_true a b : status_eqb a b = true <-> a = b.
Proof. destruct a, b; simpl; split; congruence. Qed.

Lemma find_values_get m p u :
  NoDup (map fst m) -> (forall k v, map_get m k = Some v -> v.(id) = k) ->
  find p (map_values m) = Some u -> map_get m u.(id) = Some u /\ p u = true.
Proof.
  intros Hnd Hid Hf. apply find_some in Hf. destruct Hf as [Hin Hp]. split; [|exact Hp].
  unfold map_values in Hin. apply in_map_iff in Hin. destruct Hin as [[k v] [Hv Hin]].
  simpl in Hv. subst v. pose proof (map_get_In_NoDup m k u Hnd Hin) as Hg.
  rewrite (Hid _ _ Hg). exact Hg.
Qed.

Lemma in_keys_get (m : JsMap PendingUpload) k :
  In k (map fst m) <-> exists u, map_get m k = Some u.
Proof.
  split.
  - intro H. destruct (map_get m k) eqn:E; [eauto|]. apply map_get_None in E. contradiction.
  - intros [u Hu]. apply map_get_In in Hu. apply (in_map fst) in Hu. exact Hu.
Qed.

(** The one-admission step of [processQueue]. *)
Lemma inv_admit ids urls q u :
  Inv ids urls q ->
  set_size q.(processingUploads) < MAX_CONCURRENT_UPLOADS ->
  find (is_next q) (map_values q.(pendingUploads)) = Some u ->
  Inv ids urls (processUpload
        (updateUploadStatus (set_processingUploads q (set_add q.(processingUploads) u.(id)))
           u.(id) Processing None None) u.(id)).
Proof.
  intros I Hsz Hf.
  destruct (find_values_get _ _ _ (inv_keys_nodup _ _ _ I) (inv_id_key _ _ _ I) Hf) as [Hg Hn].
  unfold is_next in Hn. apply andb_true_iff in Hn. destruct Hn as [Hp Hns].
  apply status_eqb_true in Hp. apply negb_true_iff in Hns.
  assert (Hnin : ~ In u.(id) q.(processingUploads)).
  { intro H. apply set_has_In in H. congruence. }
  set (k := u.(id)) in *.
  set (q1 := set_processingUploads q (set_add q.(processingUploads) k)).
  set (q2 := updateUploadStatus q1 k Processing None None).
  destruct (pu_unchanged q2 k) as (E1 & E2 & E3 & E4 & E5).
  pose proof (pu_inflight q2 k) as E6.
  assert (G : forall k', map_get q2.(pendingUploads) k' =
            if String.eqb k k' then Some (with_status u Processing None None)
            else map_get q.(pendingUploads) k').
  { intro k'. unfold q2. rewrite upd_get. simpl. rewrite Hg. reflexivity. }
  assert (G2 : map_get q2.(pendingUploads) k = Some (with_status u Processing None None)).
  { rewrite G, eqb_refl_s. reflexivity. }
  assert (K : map fst q2.(pendingUploads) = map fst q.(pendingUploads)) by (unfold q2; rewrite upd_keys; reflexivity).
  assert (P : q2.(processingUploads) = set_add q.(processingUploads) k) by (unfold q2; rewrite upd_processing; reflexivity).
  assert (C : q2.(callbacks) = q.(callbacks)) by (unfold q2; rewrite upd_callbacks; reflexivity).
  assert (T : q2.(inflight) = q.(inflight)) by (unfold q2; rewrite upd_inflight; reflexivity).
  assert (R : q2.(revoked) = q.(revoked)) by (unfold q2; rewrite upd_revoked; reflexivity).
  rewrite G2 in E6. rewrite T in E6.
  destruct I; constructor; rewrite ?E1, ?E2, ?E3, ?E5, ?E6, ?K, ?P, ?C, ?R; auto.
  - intros k' v. rewrite G. destruct (String.eqb k k') eqn:E; eqbs; [|auto].
    injection 1 as <-. reflexivity.
  - apply NoDup_set_add. assumption.
  - pose proof (set_add_size q.(processingUploads) k). lia.
  - intro k'. rewrite In_set_add, G. destruct (String.eqb k k') eqn:E; eqbs.
    + split; [intros _; eexists; split; reflexivity|auto].
    + apply String.eqb_neq in E. rewrite <- inv_set_proc0. split; [|auto].
      intros [Heq|H]; [exfalso; apply E; symmetry; exact Heq|exact H].
  - intros k' v. rewrite G, count_tasks_app, count_tasks_one.
    destruct (String.eqb k k') eqn:E; eqbs.
    + injection 1 as <-. simpl. rewrite (inv_tasks0 _ _ Hg), Hp. reflexivity.
    + intro Hv. rewrite (inv_tasks0 _ _ Hv). lia.
  - intros t Ht. apply in_app_iff in Ht. destruct Ht as [Ht|[<-|[]]]; auto.
    simpl. apply inv_keys_issued0. apply in_keys_get. eauto.
  - intros k' v. rewrite G. destruct (String.eqb k k'); [injection 1 as <-; simpl|]; eauto.
  - intros k1 k2 v1 v2 H1 H2 H3. rewrite G in H1, H2.
    destruct (String.eqb k k1) eqn:F1, (String.eqb k k2) eqn:F2.
    + apply String.eqb_eq in F1, F2. congruence.
    + apply String.eqb_eq in F1. injection H1 as <-. simpl in H3. rewrite <- F1.
      apply (inv_thumb_distinct0 k k2 u v2 Hg H2 H3).
    + apply String.eqb_eq in F2. injection H2 as <-. simpl in H3. rewrite <- F2.
      apply (inv_thumb_distinct0 k1 k v1 u H1 Hg H3).
    + eauto.
Qed.

Lemma inv_processQueue ids urls q : Inv ids urls q -> Inv ids urls (processQueue q).
Proof.
  intro I. destruct (pq_cases q) as [->|[u (Hs & Hf & ->)]]; [exact I|].
  apply inv_admit; assumption.
Qed.

Lemma status_eqb_refl s : status_eqb s s = true.
Proof. destruct s; reflexivity. Qed.

Lemma with_status_id u st a e : (with_status u st a e).(id) = u.(id).
Proof. reflexivity. Qed.

Lemma with_status_thumbnail u st a e : (with_status u st a e).(thumbnail) = u.(thumbnail).
Proof. reflexivity. Qed.

(** The [finally] block after a settled attempt, whose continuation has been
    taken out of [inflight], leaving [rest]. *)
Lemma inv_finish ids urls q rest k st a e :
  Inv ids urls q ->
  (forall k', k' <> k -> count_tasks k' rest = count_tasks k' q.(inflight)) ->
  (forall t, In t rest -> In t q.(inflight)) ->
  count_tasks k q.(inflight) = S (count_tasks k rest) ->
  st <> Processing ->
  Inv ids urls (processUpload_finally (updateUploadStatus (set_inflight q rest) k st a e) k).
Proof.
  intros I Hc Hr Hk Hst. unfold processUpload_finally. apply inv_processQueue.
  set (q2 := updateUploadStatus (set_inflight q rest) k st a e).
  assert (G : forall k', map_get q2.(pendingUploads) k' =
            if String.eqb k k' then option_map (fun u => with_status u st a e) (map_get q.(pendingUploads) k)
            else map_get q.(pendingUploads) k').
  { intro k'. unfold q2. rewrite upd_get. reflexivity. }
  assert (K : map fst q2.(pendingUploads) = map fst q.(pendingUploads)) by (unfold q2; rewrite upd_keys; reflexivity).
  assert (P : q2.(processingUploads) = q.(processingUploads)) by (unfold q2; rewrite upd_processing; reflexivity).
  assert (C : q2.(callbacks) = q.(callbacks)) by (unfold q2; rewrite upd_callbacks; reflexivity).
  assert (T : q2.(inflight) = rest) by (unfold q2; rewrite upd_inflight; reflexivity).
  assert (R : q2.(revoked) = q.(revoked)) by (unfold q2; rewrite upd_revoked; reflexivity).
  assert (Hk0 : forall u, map_get q.(pendingUploads) k = Some u -> count_tasks k rest = 0).
  { intros u Hu. pose proof (inv_tasks _ _ _ I _ _ Hu) as H.
    destruct (status_eqb (status u) Processing); lia. }
  destruct I; constructor; simpl; rewrite ?K, ?P, ?C, ?T, ?R; auto.
  - intros k' v. rewrite G. destruct (String.eqb k k') eqn:E; [|auto].
    destruct (map_get (pendingUploads q) k) as [u|] eqn:Hu; simpl; [|discriminate].
    injection 1 as <-. simpl. apply String.eqb_eq in E. rewrite <- E. eauto.
  - apply NoDup_set_delete. assumption.
  - pose proof (set_delete_size q.(processingUploads) k). lia.
  - intro k'. rewrite In_set_delete, G. destruct (String.eqb k k') eqn:E.
    + apply String.eqb_eq in E. subst k'. split; [intros [_ H]; congruence|].
      intros [v [Hv Hs]]. destruct (map_get (pendingUploads q) k); simpl in Hv; [|discriminate].
      injection Hv as <-. simpl in Hs. congruence.
    + apply String.eqb_neq in E. rewrite inv_set_proc0. split; [tauto|]. intro; split; auto.
  - intros k' v. rewrite G. destruct (String.eqb k k') eqn:E.
    + apply String.eqb_eq in E. subst k'.
      destruct (map_get (pendingUploads q) k) as [u|] eqn:Hu; simpl; [|discriminate].
      injection 1 as <-. simpl. rewrite (Hk0 u eq_refl). destruct st; simpl; congruence.
    + apply String.eqb_neq in E. intro Hv. rewrite Hc by auto. auto.
  - intros k' v. rewrite G. destruct (String.eqb k k') eqn:E; [|eauto].
    destruct (map_get (pendingUploads q) k) as [u|] eqn:Hu; simpl; [|discriminate].
    injection 1 as <-. simpl. eauto.
  - intros k1 k2 v1 v2 H1 H2 H3. rewrite G in H1, H2.
    destruct (String.eqb k k1) eqn:F1, (String.eqb k k2) eqn:F2.
    + apply String.eqb_eq in F1, F2. congruence.
    + apply String.eqb_eq in F1. subst k1.
      destruct (map_get (pendingUploads q) k) as [u|] eqn:Hu; simpl in H1; [|discriminate].
      injection H1 as <-. simpl in H3. eauto.
    + apply String.eqb_eq in F2. subst k2.
      destruct (map_get (pendingUploads q) k) as [u|] eqn:Hu; simpl in H2; [|discriminate].
      injection H2 as <-. simpl in H3. eauto.
    + eauto.
Qed.

Lemma inv_readok ids urls q k f rest b :
  Inv ids urls q -> take_reading q.(inflight) k = Some (f, rest) ->
  Inv ids urls (processUpload_afterRead (set_inflight q rest) k f (ReadOk b)).
Proof.
  intros I H. destruct (take_reading_spec _ _ _ _ H) as (H1 & H2 & H3 & H4 & _).
  assert (Hid : In k ids).
  { destruct (count_tasks_In k q.(inflight)) as [t [Ht <-]]; [lia|].
    eapply inv_tasks_issued; eauto. }
  destruct I; constructor; simpl; auto.
  - intros k' v Hv. rewrite count_tasks_app, count_tasks_one.
    rewrite <- (inv_tasks0 _ _ Hv). destruct (String.eqb k k') eqn:E.
    + apply String.eqb_eq in E. subst k'. lia.
    + apply String.eqb_neq in E. rewrite H2 by auto. lia.
  - intros t Ht. apply in_app_iff in Ht. destruct Ht as [Ht|[<-|[]]]; auto.
Qed.

Lemma inv_update_pending ids urls q k u :
  Inv ids urls q -> map_get q.(pendingUploads) k = Some u -> u.(status) = Failed ->
  Inv ids urls (updateUploadStatus q k Pending None None).
Proof.
  intros I Hu Hf.
  set (q2 := updateUploadStatus q k Pending None None).
  assert (G : forall k', map_get q2.(pendingUploads) k' =
            if String.eqb k k' then Some (with_status u Pending None None)
            else map_get q.(pendingUploads) k').
  { intro k'. unfold q2. rewrite upd_get, Hu. reflexivity. }
  assert (K : map fst q2.(pendingUploads) = map fst q.(pendingUploads)) by (unfold q2; rewrite upd_keys; reflexivity).
  assert (P : q2.(processingUploads) = q.(processingUploads)) by (unfold q2; rewrite upd_processing; reflexivity).
  assert (C : q2.(callbacks) = q.(callbacks)) by (unfold q2; rewrite upd_callbacks; reflexivity).
  assert (T : q2.(inflight) = q.(inflight)) by (unfold q2; rewrite upd_inflight; reflexivity).
  assert (R : q2.(revoked) = q.(revoked)) by (unfold q2; rewrite upd_revoked; reflexivity).
  destruct I; constructor; rewrite ?K, ?P, ?C, ?T, ?R; auto.
  - intros k' v. rewrite G. destruct (String.eqb k k') eqn:E; [|auto].
    injection 1 as <-. apply String.eqb_eq in E. subst k'. simpl. eauto.
  - intro k'. rewrite G, inv_set_proc0. destruct (String.eqb k k') eqn:E; [|tauto].
    apply String.eqb_eq in E. subst k'. split; intros [v [Hv Hs]].
    + rewrite Hu in Hv. injection Hv as <-. congruence.
    + injection Hv as <-. discriminate.
  - intros k' v. rewrite G. destruct (String.eqb k k') eqn:E; [|auto].
    injection 1 as <-. apply String.eqb_eq in E. subst k'. simpl.
    rewrite (inv_tasks0 _ _ Hu), Hf. reflexivity.
  - intros k' v. rewrite G. destruct (String.eqb k k'); [injection 1 as <-; simpl|]; eauto.
  - intros k1 k2 v1 v2 H1 H2 H3. rewrite G in H1, H2.
    destruct (String.eqb k k1) eqn:F1, (String.eqb k k2) eqn:F2.
    + apply String.eqb_eq in F1, F2. congruence.
    + apply String.eqb_eq in F1. subst k1. injection H1 as <-. simpl in H3. eauto.
    + apply String.eqb_eq in F2. subst k2. injection H2 as <-. simpl in H3. eauto.
    + eauto.
Qed.

Lemma inv_retry ids urls q k : Inv ids urls q -> Inv ids urls (retryUpload q k).
Proof.
  intro I. unfold retryUpload.
  destruct (map_get (pendingUploads q) k) as [u|] eqn:Hu; [|exact I].
  destruct (status u) eqn:Hs; simpl; try exact I.
  apply inv_processQueue. eapply inv_update_pending; eauto.
Qed.

Lemma remove_fields q k :
  let q' := removeUpload q k in
  q'.(pendingUploads) = map_delete q.(pendingUploads) k /\
  q'.(callbacks) = map_delete q.(callbacks) k /\
  q'.(processingUploads) = set_delete q.(processingUploads) k /\
  q'.(inflight) = q.(inflight) /\ q'.(notifications) = q.(notifications) /\
  q'.(revoked) = q.(revoked) ++
     match truthy_thumbnail (map_get q.(pendingUploads) k) with Some t => [t] | None => [] end.
Proof.
  unfold removeUpload. destruct (truthy_thumbnail (map_get (pendingUploads q) k));
    simpl; rewrite ?app_nil_r; repeat split.
Qed.

Lemma truthy_thumbnail_Some o t :
  truthy_thumbnail o = Some t -> exists u, o = Some u /\ u.(thumbnail) = Some t.
Proof.
  unfold truthy_thumbnail. destruct o as [u|]; [|discriminate].
  destruct (thumbnail u) as [t'|] eqn:E; [|discriminate].
  destruct (String.eqb t' ""); [discriminate|]. injection 1 as <-. eauto.
Qed.

Lemma inv_remove ids urls q k : Inv ids urls q -> Inv ids urls (removeUpload q k).
Proof.
  intro I. destruct (remove_fields q k) as (E1 & E2 & E3 & E4 & E5 & E6).
  assert (G : forall k', map_get (removeUpload q k).(pendingUploads) k' =
                         if String.eqb k k' then None else map_get q.(pendingUploads) k').
  { intro k'. rewrite E1, map_get_delete. reflexivity. }
  assert (Hrev : forall t, truthy_thumbnail (map_get q.(pendingUploads) k) = Some t ->
            exists u, map_get q.(pendingUploads) k = Some u /\ u.(thumbnail) = Some t).
  { intros t Ht. apply truthy_thumbnail_Some. exact Ht. }
  destruct I; constructor; rewrite ?E1, ?E2, ?E3, ?E4, ?E6; auto.
  - rewrite map_keys_delete. apply NoDup_filter. assumption.
  - rewrite !map_keys_delete, inv_cb_keys0. reflexivity.
  - intros k' v. rewrite map_get_delete. destruct (String.eqb k k'); [discriminate|auto].
  - apply NoDup_set_delete. assumption.
  - pose proof (set_delete_size q.(processingUploads) k). lia.
  - intro k'. rewrite In_set_delete, map_get_delete, inv_set_proc0.
    destruct (String.eqb k k') eqn:E.
    + apply String.eqb_eq in E. subst k'. split; [tauto|intros [v [Hv _]]; discriminate].
    + apply String.eqb_neq in E. split; [tauto|]. intro H; split; auto.
  - intros k' v. rewrite map_get_delete. destruct (String.eqb k k'); [discriminate|auto].
  - intros k' Hk. apply inv_keys_issued0. rewrite map_keys_delete in Hk.
    apply filter_In in Hk. tauto.
  - intros k' v. rewrite map_get_delete. destruct (String.eqb k k') eqn:E; [discriminate|].
    intro Hv. destruct (inv_thumb0 _ _ Hv) as [t (Ht & Hne & Hu & Hnr)].
    exists t. repeat split; auto.
    destruct (truthy_thumbnail (map_get (pendingUploads q) k)) as [t0|] eqn:T;
      rewrite ?app_nil_r; auto.
    rewrite in_app_iff. intros [H|[<-|[]]]; [auto|].
    destruct (Hrev _ eq_refl) as [u0 [Hu0 Ht0]].
    apply String.eqb_neq in E. apply E.
    apply (inv_thumb_distinct0 k k' u0 v Hu0 Hv). congruence.
  - intros k1 k2 v1 v2. rewrite !map_get_delete.
    destruct (String.eqb k k1); [discriminate|]. destruct (String.eqb k k2); [discriminate|].
    eauto.
  - destruct (truthy_thumbnail (map_get (pendingUploads q) k)) as [t0|] eqn:T;
      rewrite ?app_nil_r; auto.
    destruct (Hrev _ eq_refl) as [u0 [Hu0 Ht0]].
    destruct (inv_thumb0 _ _ Hu0) as [t (Ht & _ & _ & Hnr)].
    rewrite Ht0 in Ht. injection Ht as <-.
    apply NoDup_app; auto; [constructor; [simpl; tauto|constructor]|].
    intros x Hx [<-|[]]. contradiction.
  - destruct (truthy_thumbnail (map_get (pendingUploads q) k)) as [t0|] eqn:T;
      rewrite ?app_nil_r; auto.
    destruct (Hrev _ eq_refl) as [u0 [Hu0 Ht0]].
    destruct (inv_thumb0 _ _ Hu0) as [t (Ht & _ & Hin & _)].
    rewrite Ht0 in Ht. injection Ht as <-.
    intros x Hx. apply in_app_iff in Hx. destruct Hx as [Hx|[<-|[]]]; auto.
Qed.

Lemma inv_remove_all ids urls ks q :
  Inv ids urls q -> Inv ids urls (fold_left removeUpload ks q).
Proof.
  revert q. induction ks as [|k ks IH]; simpl; intros q I; [exact I|].
  apply IH. apply inv_remove. exact I.
Qed.

Lemma addUpload_unfold q uid f now thumb cb :
  addUpload q uid f now thumb cb = processQueue (addUpload_pre q uid f now thumb cb).
Proof. reflexivity. Qed.

Lemma inv_add_pre ids urls q uid f now thumb cb :
  Inv ids urls q -> ~ In uid ids -> ~ In thumb urls -> thumb <> "" ->
  Inv (uid :: ids) (thumb :: urls) (addUpload_pre q uid f now thumb cb).
Proof.
  intros I Hid Hurl Hne. unfold addUpload_pre.
  set (upload := mkUpload uid f Pending None None now (Some thumb)).
  assert (Hnk : ~ In uid (map fst q.(pendingUploads))).
  { intro H. apply Hid. apply (inv_keys_issued _ _ _ I). exact H. }
  assert (Hh : map_has q.(pendingUploads) uid = false).
  { destruct (map_has q.(pendingUploads) uid) eqn:E; [|reflexivity].
    apply map_has_In in E. contradiction. }
  assert (Hhc : map_has q.(callbacks) uid = false).
  { destruct (map_has q.(callbacks) uid) eqn:E; [|reflexivity].
    apply map_has_In in E. rewrite (inv_cb_keys _ _ _ I) in E. contradiction. }
  assert (Hnone : map_get q.(pendingUploads) uid = None) by (apply map_get_None; exact Hnk).
  assert (G : forall k', map_get (map_set q.(pendingUploads) uid upload) k' =
                         if String.eqb uid k' then Some upload else map_get q.(pendingUploads) k').
  { intro k'. apply map_get_set. }
  assert (Hns : ~ In uid q.(processingUploads)).
  { intro H. apply (inv_set_proc _ _ _ I) in H. destruct H as [v [Hv _]]. congruence. }
  destruct I; constructor; simpl; auto.
  - rewrite map_keys_set, Hh. apply NoDup_app; auto; [constructor; [simpl; tauto|constructor]|].
    intros x Hx [<-|[]]. contradiction.
  - rewrite !map_keys_set, Hh, Hhc, inv_cb_keys0. reflexivity.
  - intros k' v. rewrite G. destruct (String.eqb uid k') eqn:E; [|auto].
    injection 1 as <-. apply String.eqb_eq in E. exact E.
  - intro k'. rewrite G, inv_set_proc0. destruct (String.eqb uid k') eqn:E; [|tauto].
    apply String.eqb_eq in E. subst k'. split.
    + intros [v [Hv _]]. congruence.
    + intros [v [Hv Hs]]. injection Hv as <-. discriminate.
  - intros k' v. rewrite G. destruct (String.eqb uid k') eqn:E; [|auto].
    injection 1 as <-. apply String.eqb_eq in E. subst k'. simpl.
    destruct (count_tasks uid (inflight q)) eqn:C; [reflexivity|].
    exfalso. destruct (count_tasks_In uid (inflight q)) as [t [Ht Htid]]; [lia|].
    apply Hid. rewrite <- Htid. auto.
  - intros k' Hk. rewrite map_keys_set, Hh in Hk. apply in_app_iff in Hk.
    destruct Hk as [Hk|[<-|[]]]; simpl; auto.
  - intros k' v. rewrite G. destruct (String.eqb uid k') eqn:E.
    + injection 1 as <-. simpl. exists thumb. repeat split; auto.
    + intro Hv. destruct (inv_thumb0 _ _ Hv) as [t (Ht & H1 & H2 & H3)].
      exists t. simpl. auto.
  - intros k1 k2 v1 v2 H1 H2 H3. rewrite G in H1, H2.
    destruct (String.eqb uid k1) eqn:F1, (String.eqb uid k2) eqn:F2.
    + apply String.eqb_eq in F1, F2. congruence.
    + injection H1 as <-. destruct (inv_thumb0 _ _ H2) as [t (Ht & _ & Hin & _)].
      simpl in H3. rewrite Ht in H3. injection H3 as ->. contradiction.
    + injection H2 as <-. destruct (inv_thumb0 _ _ H1) as [t (Ht & _ & Hin & _)].
      simpl in H3. rewrite Ht in H3. injection H3 as ->. contradiction.
    + eauto.
Qed.

Lemma inv_add ids urls q uid f now thumb cb :
  Inv ids urls q -> ~ In uid ids -> ~ In thumb urls -> thumb <> "" ->
  Inv (uid :: ids) (thumb :: urls) (addUpload q uid f now thumb cb).
Proof.
  intros. rewrite addUpload_unfold. apply inv_processQueue. apply inv_add_pre; assumption.
Qed.

Lemma inv_step ids urls q e :
  Inv ids urls q -> fresh_event ids urls e ->
  Inv (issue_id ids e) (issue_url urls e) (step q e).
Proof.
  intros I Hf. destruct e as [uid f now thumb cb|uid|uid| |uid r|uid r]; simpl in *.
  - destruct Hf as (H1 & H2 & H3). apply inv_add; auto.
  - apply inv_remove. exact I.
  - apply inv_retry. exact I.
  - unfold clearCompleted. apply inv_remove_all. exact I.
  - destruct (take_reading (inflight q) uid) as [[f rest]|] eqn:T; [|exact I].
    destruct r as [b|].
    + apply inv_readok; auto.
    + destruct (take_reading_spec _ _ _ _ T) as (H1 & H2 & H3 & _).
      unfold processUpload_afterRead, processUpload_catch.
      apply (inv_finish ids urls q rest uid Failed); auto; discriminate.
  - destruct (take_extracting (inflight q) uid) as [rest|] eqn:T; [|exact I].
    destruct (take_extracting_spec _ _ _ T) as (H1 & H2 & H3 & _).
    destruct r as [addrs|ex]; unfold processUpload_afterExtract, processUpload_catch.
    + apply (inv_finish ids urls q rest uid Completed); auto; discriminate.
    + apply (inv_finish ids urls q rest uid Failed); auto; discriminate.
Qed.

Lemma reachable_inv ids urls q : reachable ids urls q -> Inv ids urls q.
Proof.
  induction 1 as [|ids urls q e _ IH Hf].
  - constructor; simpl; try solve [constructor | intros; discriminate | tauto | lia].
    intro k. split; [tauto|intros [u [Hu _]]; discriminate].
  - apply inv_step; assumption.
Qed.

(** ** Notifications *)

Lemma inv_struct ids urls q : Inv ids urls q -> Struct q.
Proof. intro I. split; [|split]; apply I. Qed.

Lemma chain_app s l1 t l2 r : chain s l1 t -> chain t l2 r -> chain s (l1 ++ l2) r.
Proof.
  revert s. induction l1 as [|x l1 IH]; simpl; intros s H1 H2.
  - subst. exact H2.
  - destruct H1 as [Hl Hc]. split; auto.
Qed.

Lemma notified_app k l1 l2 :
  notified_statuses k (l1 ++ l2) = notified_statuses k l1 ++ notified_statuses k l2.
Proof. unfold notified_statuses. rewrite filter_app, map_app. reflexivity. Qed.

Lemma keys_get_None {V} (m m' : JsMap V) k :
  map fst m' = map fst m -> (map_get m' k = None <-> map_get m k = None).
Proof. intro H. rewrite !map_get_None, H. tauto. Qed.

Lemma in_keys_get_any {V} (m : JsMap V) k :
  In k (map fst m) <-> exists v, map_get m k = Some v.
Proof.
  split.
  - intro H. destruct (map_get m k) eqn:E; [eauto|]. apply map_get_None in E. contradiction.
  - intros [v Hv]. apply map_get_In in Hv. apply (in_map fst) in Hv. exact Hv.
Qed.

Lemma notif_frame_trans q q1 q2 :
  notif_ok q q1 -> notif_ok q1 q2 -> frame q1 q2 -> notif_ok q q2.
Proof.
  intros [n1 (N1 & D1 & S1)] [n2 (N2 & D2 & S2)] [K C].
  exists (n1 ++ n2). split; [rewrite N2, N1, app_assoc; reflexivity|]. split.
  - intros p Hp. apply in_app_iff in Hp. destruct Hp as [Hp|Hp]; auto. rewrite C. auto.
  - intro k. specialize (S1 k). specialize (S2 k). rewrite notified_app.
    pose proof (keys_get_None _ _ k K) as KN.
    destruct (map_get (pendingUploads q) k) as [u|];
    destruct (map_get (pendingUploads q1) k) as [u1|];
    destruct (map_get (pendingUploads q2) k) as [u2|];
    first [ exfalso; destruct KN as [KN1 KN2];
            first [discriminate (KN1 eq_refl) | discriminate (KN2 eq_refl)]
          | rewrite S1, S2; reflexivity
          | destruct S1 as [S1 C1], S2 as [S2 C2]; split; [eapply chain_app; eauto|congruence]
          | destruct S2 as [S2 _]; eapply chain_app; eauto ].
Qed.

Lemma notif_quiet q q' :
  q'.(notifications) = q.(notifications) ->
  (forall k, map_get q'.(pendingUploads) k = None \/
     (map_get q'.(pendingUploads) k = map_get q.(pendingUploads) k /\
      map_get q'.(callbacks) k = map_get q.(callbacks) k)) ->
  notif_ok q q'.
Proof.
  intros N H. exists []. rewrite app_nil_r. split; [exact N|]. split; [intros _ []|].
  intro k. destruct (H k) as [E|[E1 E2]].
  - rewrite E. destruct (map_get (pendingUploads q) k); reflexivity.
  - rewrite E1, E2. destruct (map_get (pendingUploads q) k); simpl; auto.
Qed.

Lemma notif_refl q q' :
  q'.(notifications) = q.(notifications) -> q'.(pendingUploads) = q.(pendingUploads) ->
  q'.(callbacks) = q.(callbacks) -> notif_ok q q' /\ frame q q'.
Proof.
  intros N P C. split.
  - apply notif_quiet; auto. intro k. rewrite P, C. auto.
  - unfold frame. rewrite P, C. auto.
Qed.

Lemma notif_update q k st a e :
  Struct q ->
  (forall u, map_get q.(pendingUploads) k = Some u -> legal_transition u.(status) st = true) ->
  notif_ok q (updateUploadStatus q k st a e) /\ frame q (updateUploadStatus q k st a e) /\
  Struct (updateUploadStatus q k st a e).
Proof.
  intros (Hnd & Hcb & Hid) Hl.
  set (q' := updateUploadStatus q k st a e).
  assert (K : map fst q'.(pendingUploads) = map fst q.(pendingUploads)) by apply upd_keys.
  assert (C : q'.(callbacks) = q.(callbacks)) by apply upd_callbacks.
  assert (G : forall k', map_get q'.(pendingUploads) k' =
            if String.eqb k k' then option_map (fun u => with_status u st a e) (map_get q.(pendingUploads) k)
            else map_get q.(pendingUploads) k') by apply upd_get.
  split; [|split; [split; auto|]].
  - destruct (map_get (pendingUploads q) k) as [u|] eqn:Hu.
    + destruct (proj1 (in_keys_get_any q.(callbacks) k)) as [cb Hcbk].
      { rewrite Hcb. apply in_keys_get_any. eauto. }
      exists [(cb, with_status u st a e)]. split.
      * unfold q'. rewrite upd_notifications, Hu, Hcbk. reflexivity.
      * split.
        { intros p [<-|[]]. simpl. rewrite C, (Hid _ _ Hu). exact Hcbk. }
        intro k'. rewrite G. unfold notified_statuses. simpl. rewrite (Hid _ _ Hu).
        destruct (String.eqb k k') eqn:E.
        -- apply String.eqb_eq in E. subst k'. rewrite Hu. simpl.
           rewrite C. split; [split; [apply Hl; reflexivity|reflexivity]|reflexivity].
        -- destruct (map_get (pendingUploads q) k'); rewrite ?C; simpl; auto.
    + apply notif_quiet.
      * unfold q'. rewrite upd_notifications, Hu. apply app_nil_r.
      * intro k'. right. rewrite G, C. destruct (String.eqb k k') eqn:E; [|auto].
        apply String.eqb_eq in E. subst k'. rewrite Hu. auto.
  - split; [rewrite K; exact Hnd|split; [rewrite C, K; exact Hcb|]].
    intros k' v. rewrite G. destruct (String.eqb k k') eqn:E; [|auto].
    destruct (map_get (pendingUploads q) k) as [u|] eqn:Hu; simpl; [|discriminate].
    injection 1 as <-. simpl. apply String.eqb_eq in E. subst k'. eauto.
Qed.

Lemma struct_same q q' :
  q'.(pendingUploads) = q.(pendingUploads) -> q'.(callbacks) = q.(callbacks) -> Struct q -> Struct q'.
Proof. intros P C (H1 & H2 & H3). unfold Struct. rewrite P, C. auto. Qed.

Lemma frame_trans q q1 q2 : frame q q1 -> frame q1 q2 -> frame q q2.
Proof. intros [K1 C1] [K2 C2]. split; congruence. Qed.

Lemma notif_processQueue q :
  Struct q -> notif_ok q (processQueue q) /\ frame q (processQueue q) /\ Struct (processQueue q).
Proof.
  intro S. destruct (pq_cases q) as [E|[u (Hs & Hf & E)]]; rewrite E.
  - destruct (notif_refl q q) as [N F]; auto.
  - destruct S as (Hnd & Hcb & Hid).
    destruct (find_values_get _ _ _ Hnd Hid Hf) as [Hg Hn].
    unfold is_next in Hn. apply andb_true_iff in Hn. destruct Hn as [Hp _].
    apply status_eqb_true in Hp.
    set (q1 := set_processingUploads q (set_add q.(processingUploads) u.(id))).
    assert (S1 : Struct q1) by (apply (struct_same q); try reflexivity; split; auto).
    destruct (notif_refl q q1) as [N1 F1]; try reflexivity.
    destruct (notif_update q1 u.(id) Processing None None S1) as (N2 & F2 & S2).
    { simpl. rewrite Hg. injection 1 as <-. rewrite Hp. reflexivity. }
    set (q2 := updateUploadStatus q1 u.(id) Processing None None) in *.
    destruct (pu_unchanged q2 u.(id)) as (E1 & E2 & E3 & E4 & E5).
    destruct (notif_refl q2 (processUpload q2 u.(id))) as [N3 F3]; auto.
    split; [|split].
    + apply (notif_frame_trans _ q2); [apply (notif_frame_trans _ q1)| |]; auto.
    + apply (frame_trans _ q2); [apply (frame_trans _ q1)|]; auto.
    + apply (struct_same q2); auto.
Qed.

Lemma notif_finish q k st a e :
  Struct q ->
  (forall u, map_get q.(pendingUploads) k = Some u -> u.(status) = Processing) ->
  st = Completed \/ st = Failed ->
  notif_ok q (processUpload_finally (updateUploadStatus q k st a e) k).
Proof.
  intros S Hp Hst.
  destruct (notif_update q k st a e S) as (N1 & F1 & S1).
  { intros u Hu. rewrite (Hp u Hu). destruct Hst as [->| ->]; reflexivity. }
  set (q1 := updateUploadStatus q k st a e) in *.
  set (q2 := set_processingUploads q1 (set_delete q1.(processingUploads) k)).
  destruct (notif_refl q1 q2) as [N2 F2]; try reflexivity.
  assert (S2 : Struct q2) by (apply (struct_same q1); auto).
  destruct (notif_processQueue q2 S2) as (N3 & F3 & _).
  unfold processUpload_finally. fold q2.
  apply (notif_frame_trans _ q2); [apply (notif_frame_trans _ q1)| |]; auto.
Qed.

Lemma quiet_remove q k : quiet q (removeUpload q k).
Proof.
  destruct (remove_fields q k) as (E1 & E2 & E3 & E4 & E5 & E6). split; [exact E5|].
  intro k'. rewrite E1, E2, !map_get_delete. destruct (String.eqb k k'); auto.
Qed.

Lemma quiet_remove_all ks q : quiet q (fold_left removeUpload ks q).
Proof.
  revert q. induction ks as [|k ks IH]; simpl; intro q.
  - split; [reflexivity|]. intro k; right; auto.
  - destruct (quiet_remove q k) as [N1 H1]. destruct (IH (removeUpload q k)) as [N2 H2].
    split; [congruence|]. intro k'.
    destruct (H2 k') as [E|[E1 E2]]; [auto|].
    destruct (H1 k') as [E|[E3 E4]]; [left; congruence|right; split; congruence].
Qed.

(** A live job with a suspended continuation is [Processing]. *)
Lemma inv_task_processing ids urls q k u :
  Inv ids urls q -> map_get q.(pendingUploads) k = Some u -> count_tasks k q.(inflight) <> 0 ->
  u.(status) = Processing.
Proof.
  intros I Hu Hc. rewrite (inv_tasks _ _ _ I _ _ Hu) in Hc.
  destruct (status u); simpl in Hc; congruence.
Qed.

Lemma notif_settled ids urls q k rest st a e :
  Inv ids urls q -> count_tasks k q.(inflight) <> 0 -> st = Completed \/ st = Failed ->
  notif_ok q (processUpload_finally (updateUploadStatus (set_inflight q rest) k st a e) k).
Proof.
  intros I Hc Hst.
  assert (S : Struct (set_inflight q rest)) by (apply (struct_same q); try reflexivity; apply (inv_struct _ _ _ I)).
  destruct (notif_refl q (set_inflight q rest)) as [N1 F1]; try reflexivity.
  apply (notif_frame_trans _ (set_inflight q rest)); auto.
  - apply notif_finish; auto. intros u Hu. eapply inv_task_processing; eauto.
  - unfold processUpload_finally.
    destruct (notif_update (set_inflight q rest) k st a e S) as (_ & F2 & S2).
    { intros u Hu. rewrite (inv_task_processing _ _ _ _ _ I Hu Hc).
      destruct Hst as [->| ->]; reflexivity. }
    destruct (notif_processQueue (set_processingUploads (updateUploadStatus (set_inflight q rest) k st a e)
         (set_delete (processingUploads (updateUploadStatus (set_inflight q rest) k st a e)) k))) as (_ & F3 & _).
    { apply (struct_same (updateUploadStatus (set_inflight q rest) k st a e)); auto. }
    eapply frame_trans; [exact F2|]. exact F3.
Qed.

Lemma notif_add_pre ids urls q uid f now thumb cb :
  Inv ids urls q -> ~ In uid ids ->
  notif_ok q (addUpload_pre q uid f now thumb cb).
Proof.
  intros I Hid.
  assert (Hnone : map_get q.(pendingUploads) uid = None).
  { apply map_get_None. intro H. apply Hid. apply (inv_keys_issued _ _ _ I). exact H. }
  exists []. rewrite app_nil_r. split; [reflexivity|]. split; [intros _ []|].
  intro k. unfold addUpload_pre. simpl. rewrite !map_get_set.
  destruct (String.eqb uid k) eqn:E.
  - apply String.eqb_eq in E. subst k. rewrite Hnone. reflexivity.
  - destruct (map_get (pendingUploads q) k); simpl; auto.
Qed.

Lemma fresh_eventb_sound ids urls e : fresh_eventb ids urls e = true -> fresh_event ids urls e.
Proof.
  destruct e as [uid f now thumb cb| | | | |]; simpl; auto.
  rewrite !andb_true_iff, !negb_true_iff. intros [[H1 H2] H3].
  repeat split.
  - intro H. assert (existsb (String.eqb uid) ids = true) by
      (apply existsb_exists; exists uid; split; [exact H|apply eqb_refl_s]). congruence.
  - intro H. assert (existsb (String.eqb thumb) urls = true) by
      (apply existsb_exists; exists thumb; split; [exact H|apply eqb_refl_s]). congruence.
  - intro H. subst. discriminate.
Qed.

Lemma reachable_run ids urls q es :
  reachable ids urls q -> fresh_traceb ids urls es = true ->
  reachable (issued_ids ids es) (issued_urls urls es) (run q es).
Proof.
  revert ids urls q. induction es as [|e es IH]; simpl; intros ids urls q R H; [exact R|].
  apply andb_true_iff in H. destruct H as [H1 H2].
  apply IH; [|exact H2]. apply reachable_step; [exact R|]. apply fresh_eventb_sound. exact H1.
Qed.

Lemma reachable_trace es :
  fresh_traceb [] [] es = true ->
  reachable (issued_ids [] es) (issued_urls [] es) (run empty_queue es).
Proof. intro H. apply reachable_run; [constructor|exact H]. Qed.

(** Counting the live jobs in [Processing]. *)
Lemma map_id_filter (m : JsMap PendingUpload) (P : PendingUpload -> bool) :
  (forall k u, In (k, u) m -> u.(id) = k) ->
  map id (filter P (map snd m)) = map fst (filter (fun p => P (snd p)) m).
Proof.
  induction m as [|[k u] m IH]; simpl; intro H; [reflexivity|].
  destruct (P u); simpl; [f_equal; [apply (H k u); auto|]|]; apply IH; intros; eapply H; eauto.
Qed.

Lemma NoDup_map_filter {A B} (f : A -> B) (p : A -> bool) l :
  NoDup (map f l) -> NoDup (map f (filter p l)).
Proof.
  induction l as [|x l IH]; simpl; intro H; [constructor|].
  inversion H as [|? ? Hn Hl]; subst. destruct (p x); simpl; auto.
  constructor; auto. intro Hin. apply Hn. apply in_map_iff in Hin.
  destruct Hin as [y [Hy Hin]]. apply filter_In in Hin. apply in_map_iff. exists y. tauto.
Qed.

Lemma count_processing_size ids urls q :
  Inv ids urls q -> count_processing q = set_size q.(processingUploads).
Proof.
  intro I. unfold count_processing, getAllUploads, map_values, set_size.
  assert (Hkey : forall k u, In (k, u) q.(pendingUploads) -> u.(id) = k).
  { intros k u Hin. apply (inv_id_key _ _ _ I).
    apply map_get_In_NoDup; [apply (inv_keys_nodup _ _ _ I)|exact Hin]. }
  rewrite <- (length_map id). rewrite map_id_filter by exact Hkey.
  apply Permutation_length. apply NoDup_Permutation.
  - apply NoDup_map_filter. apply (inv_keys_nodup _ _ _ I).
  - apply (inv_set_nodup _ _ _ I).
  - intro k. rewrite (inv_set_proc _ _ _ I). rewrite in_map_iff. split.
    + intros [[k' u] [Hk Hin]]. simpl in Hk. subst k'. apply filter_In in Hin.
      destruct Hin as [Hin Hp]. exists u. split.
      * apply map_get_In_NoDup; [apply (inv_keys_nodup _ _ _ I)|exact Hin].
      * apply status_eqb_true. exact Hp.
    + intros [u [Hu Hp]]. exists (k, u). split; [reflexivity|].
      apply filter_In. split; [apply map_get_In; exact Hu|]. simpl. rewrite Hp. reflexivity.
Qed.

Lemma struct_update q k st a e : Struct q -> Struct (updateUploadStatus q k st a e).
Proof.
  intros (Hnd & Hcb & Hid). unfold Struct. rewrite upd_keys, upd_callbacks.
  split; [exact Hnd|split; [exact Hcb|]].
  intros k' v. rewrite upd_get. destruct (String.eqb k k') eqn:E; [|auto].
  destruct (map_get (pendingUploads q) k) as [u|] eqn:Hu; simpl; [|discriminate].
  injection 1 as <-. simpl. apply String.eqb_eq in E. subst k'. eauto.
Qed.

(** *** Settling an attempt *)

Lemma task_take ts k :
  count_tasks k ts <> 0 ->
  (exists f rest, take_reading ts k = Some (f, rest)) \/ (exists rest, take_extracting ts k = Some rest).
Proof.
  unfold count_tasks. induction ts as [|t ts IH]; simpl; intro H; [lia|].
  destruct t as [tid [f0|b m]]; simpl in *.
  - destruct (String.eqb tid k) eqn:E; [left; eauto|].
    destruct (IH H) as [[f [r Hr]]|[r Hr]]; [left|right]; rewrite Hr; simpl; eauto.
  - destruct (String.eqb tid k) eqn:E; [right; eauto|].
    destruct (IH H) as [[f [r Hr]]|[r Hr]]; [left|right]; rewrite Hr; simpl; eauto.
Qed.

Lemma pq_keys q : map fst (processQueue q).(pendingUploads) = map fst q.(pendingUploads).
Proof.
  destruct (pq_cases q) as [->|[u (_ & _ & ->)]]; [reflexivity|].
  destruct (pu_unchanged (updateUploadStatus (set_processingUploads q (set_add (processingUploads q) (id u)))
                           (id u) Processing None None) (id u)) as (E1 & _).
  rewrite E1, upd_keys. reflexivity.
Qed.

(** [processQueue] leaves alone a job that is not [Pending]. *)
Lemma pq_nonpending q k v :
  Struct q -> map_get q.(pendingUploads) k = Some v -> v.(status) <> Pending ->
  map_get (processQueue q).(pendingUploads) k = Some v /\
  (In k (processQueue q).(processingUploads) <-> In k q.(processingUploads)).
Proof.
  intros (Hnd & Hcb & Hid) Hv Hs.
  destruct (pq_cases q) as [->|[u (_ & Hf & ->)]]; [tauto|].
  destruct (find_values_get _ _ _ Hnd Hid Hf) as [Hg Hn].
  unfold is_next in Hn. apply andb_true_iff in Hn. destruct Hn as [Hp _].
  apply status_eqb_true in Hp.
  assert (Hne : u.(id) <> k) by (intro; subst k; congruence).
  destruct (pu_unchanged (updateUploadStatus (set_processingUploads q (set_add (processingUploads q) (id u)))
                           (id u) Processing None None) (id u)) as (E1 & E2 & _).
  rewrite E1, E2, upd_get, upd_processing. simpl. rewrite eqb_neq_s by exact Hne.
  split; [exact Hv|]. rewrite In_set_add. split; [intros [H|H]; [congruence|exact H]|auto].
Qed.

Lemma settle_live ids urls q k u rest st a e :
  Inv ids urls q -> map_get q.(pendingUploads) k = Some u -> st <> Pending ->
  settled_as (processUpload_finally (updateUploadStatus (set_inflight q rest) k st a e) k) k
             (with_status u st a e).
Proof.
  intros I Hu Hst.
  set (q2 := updateUploadStatus (set_inflight q rest) k st a e).
  set (q1 := set_processingUploads q2 (set_delete q2.(processingUploads) k)).
  assert (S0 : Struct (set_inflight q rest)) by (apply (struct_same q); try reflexivity; apply (inv_struct _ _ _ I)).
  assert (S1 : Struct q1) by (apply (struct_same q2); try reflexivity; apply struct_update; exact S0).
  assert (G1 : map_get q1.(pendingUploads) k = Some (with_status u st a e)).
  { simpl. unfold q2. rewrite upd_get, eqb_refl_s. simpl. rewrite Hu. reflexivity. }
  assert (N1 : ~ In k q1.(processingUploads)).
  { simpl. rewrite In_set_delete. tauto. }
  destruct (pq_nonpending q1 k _ S1 G1 Hst) as [G' N'].
  exists q1. unfold getUpload, processUpload_finally. fold q1. repeat split; auto.
  rewrite N'. exact N1.
Qed.
Lemma queue_ext q q' :
  q'.(pendingUploads) = q.(pendingUploads) -> q'.(processingUploads) = q.(processingUploads) ->
  q'.(callbacks) = q.(callbacks) -> q'.(inflight) = q.(inflight) ->
  q'.(notifications) = q.(notifications) -> q'.(revoked) = q.(revoked) -> q' = q.
Proof. destruct q, q'; simpl; intros; subst; reflexivity. Qed.

Lemma filter_idem {A} (f : A -> bool) l : filter f (filter f l) = filter f l.
Proof.
  induction l as [|x l IH]; simpl; [reflexivity|].
  destruct (f x) eqn:E; simpl; rewrite ?E; congruence.
Qed.

Lemma upd_absent q k st a e :
  map_get q.(pendingUploads) k = None -> updateUploadStatus q k st a e = q.
Proof. intro H. unfold updateUploadStatus. rewrite H. reflexivity. Qed.

Lemma find_app_first {A} (p : A -> bool) l1 x l2 :
  (forall y, In y l1 -> p y = false) -> p x = true -> find p (l1 ++ x :: l2) = Some x.
Proof.
  induction l1 as [|y l1 IH]; simpl; intros H Hx; [rewrite Hx; reflexivity|].
  rewrite (H y (or_introl eq_refl)). apply IH; auto.
Qed.

Lemma map_id_values (m : JsMap PendingUpload) :
  (forall k u, In (k, u) m -> u.(id) = k) -> map id (map_values m) = map fst m.
Proof.
  unfold map_values. induction m as [|[k u] m IH]; simpl; intro H; [reflexivity|].
  f_equal; [apply (H k u); auto|]. apply IH. intros; eapply H; eauto.
Qed.

Lemma struct_values_get q v :
  Struct q -> In v (map_values q.(pendingUploads)) -> map_get q.(pendingUploads) v.(id) = Some v.
Proof.
  intros (Hnd & _ & Hid) Hin. unfold map_values in Hin. apply in_map_iff in Hin.
  destruct Hin as [[k w] [Hw Hin]]. simpl in Hw. subst w.
  pose proof (map_get_In_NoDup _ _ _ Hnd Hin) as Hg. rewrite (Hid _ _ Hg). exact Hg.
Qed.

Lemma struct_ids_nodup q :
  Struct q -> NoDup (map id (map_values q.(pendingUploads))).
Proof.
  intros (Hnd & Hcb & Hid). rewrite map_id_values; [exact Hnd|].
  intros k u Hin. apply Hid. apply map_get_In_NoDup; assumption.
Qed.

Lemma filter_filter_and {A} (f g : A -> bool) l :
  filter f (filter g l) = filter (fun x => g x && f x) l.
Proof.
  induction l as [|x l IH]; simpl; [reflexivity|].
  destruct (g x); simpl; [destruct (f x); simpl; congruence|exact IH].
Qed.

Lemma filter_all_true {A} (f : A -> bool) l : (forall x, In x l -> f x = true) -> filter f l = l.
Proof.
  induction l as [|x l IH]; simpl; intro H; [reflexivity|].
  rewrite (H x (or_introl eq_refl)). f_equal. apply IH. auto.
Qed.

Lemma existsb_eqb_In k l : existsb (String.eqb k) l = true <-> In k l.
Proof.
  rewrite existsb_exists. split.
  - intros [x [Hx E]]. apply String.eqb_eq in E. subst. exact Hx.
  - intro H. exists k. split; [exact H|apply eqb_refl_s].
Qed.

Section RemoveAll.

Lemma remove_all_fields ks q :
  (fold_left removeUpload ks q).(pendingUploads) =
    filter (fun p => negb (existsb (String.eqb (fst p)) ks)) q.(pendingUploads) /\
  (fold_left removeUpload ks q).(callbacks) =
    filter (fun p => negb (existsb (String.eqb (fst p)) ks)) q.(callbacks) /\
  (fold_left removeUpload ks q).(processingUploads) =
    filter (fun x => negb (existsb (String.eqb x) ks)) q.(processingUploads) /\
  (fold_left removeUpload ks q).(inflight) = q.(inflight) /\
  (fold_left removeUpload ks q).(notifications) = q.(notifications).
Proof.
  revert q. induction ks as [|k ks IH]; simpl; intro q.
  - rewrite !filter_all_true by auto. repeat split.
  - destruct (IH (removeUpload q k)) as (F1 & F2 & F3 & F4 & F5).
    destruct (remove_fields q k) as (E1 & E2 & E3 & E4 & E5 & _).
    rewrite F1, F2, F3, F4, F5, E1, E2, E3, E4, E5.
    unfold map_delete, set_delete. rewrite !filter_filter_and.
    repeat split; apply filter_ext; intro x;
      [destruct (String.eqb (fst x) k)|destruct (String.eqb (fst x) k)|destruct (String.eqb x k)];
      reflexivity.
Qed.

Lemma remove_all_revoked ks q :
  NoDup ks ->
  (fold_left removeUpload ks q).(revoked) = q.(revoked) ++ flat_map (revoked_thumb q.(pendingUploads)) ks.
Proof.
  revert q. induction ks as [|k ks IH]; simpl; intros q Hnd; [rewrite app_nil_r; reflexivity|].
  inversion Hnd as [|? ? Hk Hks]; subst.
  rewrite (IH _ Hks). destruct (remove_fields q k) as (E1 & _ & _ & _ & _ & E6).
  rewrite E6, E1, <- app_assoc. f_equal. unfold revoked_thumb at 1. f_equal.
  clear IH Hnd Hks E1 E6. induction ks as [|k' ks IH']; simpl; [reflexivity|].
  f_equal.
  - unfold revoked_thumb. rewrite map_get_delete, eqb_neq_s; [reflexivity|].
    intro; subst; apply Hk; left; reflexivity.
  - apply IH'. intro; apply Hk; right; assumption.
Qed.

End RemoveAll.

(** *** Settlement of an attempt whose job was removed *)

Lemma removed_settle_shape ids urls q k e :
  Inv ids urls q -> map_get q.(pendingUploads) k = None ->
  (exists r, e = ReadSettled k r) \/ (exists r, e = ExtractSettled k r) ->
  exists q0, q0.(pendingUploads) = q.(pendingUploads) /\ q0.(callbacks) = q.(callbacks) /\
    q0.(processingUploads) = q.(processingUploads) /\ q0.(notifications) = q.(notifications) /\
    q0.(revoked) = q.(revoked) /\ (step q e = q0 \/ step q e = processQueue q0).
Proof.
  intros I Hk He.
  assert (Hns : ~ In k q.(processingUploads)).
  { rewrite (inv_set_proc _ _ _ I). intros [u [Hu _]]. congruence. }
  assert (Fin : forall rest e',
    exists q0, q0.(pendingUploads) = q.(pendingUploads) /\ q0.(callbacks) = q.(callbacks) /\
      q0.(processingUploads) = q.(processingUploads) /\ q0.(notifications) = q.(notifications) /\
      q0.(revoked) = q.(revoked) /\
      processUpload_catch (set_inflight q rest) k e' = processQueue q0).
  { intros rest e'. unfold processUpload_catch, processUpload_finally.
    rewrite upd_absent by exact Hk.
    exists (set_processingUploads (set_inflight q rest) (set_delete q.(processingUploads) k)).
    simpl. rewrite (set_delete_absent _ _ Hns). repeat split. }
  destruct He as [[r ->]|[r ->]]; simpl.
  - destruct (take_reading q.(inflight) k) as [[f rest]|].
    + destruct r as [b64|]; simpl.
      * exists (set_inflight (set_inflight q rest) (rest ++ [mkTask k (Extracting b64 (mimeTypeOf f))])).
        repeat split. left. reflexivity.
      * destruct (Fin rest (ErrorObj "Failed to read file")) as [q0 (E1 & E2 & E3 & E4 & E5 & E6)].
        exists q0. repeat split; auto.
    + exists q. repeat split. left. reflexivity.
  - destruct (take_extracting q.(inflight) k) as [rest|].
    + destruct r as [addrs|ex]; simpl.
      * unfold processUpload_finally. rewrite upd_absent by exact Hk.
        exists (set_processingUploads (set_inflight q rest) (set_delete q.(processingUploads) k)).
        simpl. rewrite (set_delete_absent _ _ Hns). repeat split. right. reflexivity.
      * destruct (Fin rest ex) as [q0 (E1 & E2 & E3 & E4 & E5 & E6)].
        exists q0. repeat split; auto.
    + exists q. repeat split. left. reflexivity.
Qed.

Lemma pq_absent_quiet q0 k :
  Struct q0 -> map_get q0.(pendingUploads) k = None ->
  map_get (processQueue q0).(pendingUploads) k = None /\
  exists new, (processQueue q0).(notifications) = q0.(notifications) ++ new /\
    forall p, In p new -> (snd p).(id) <> k.
Proof.
  intros S Hk. destruct (notif_processQueue q0 S) as [[new (N & _ & Sk)] _].
  assert (Hk' : map_get (processQueue q0).(pendingUploads) k = None).
  { apply (keys_get_None _ _ k (pq_keys q0)). exact Hk. }
  split; [exact Hk'|]. exists new. split; [exact N|].
  specialize (Sk k). rewrite Hk, Hk' in Sk.
  intros p Hp Hid. unfold notified_statuses in Sk.
  assert (Hf : In p (filter (fun p => String.eqb (snd p).(id) k) new)).
  { apply filter_In. split; [exact Hp|]. rewrite Hid. apply eqb_refl_s. }
  destruct (filter _ new); [contradiction|discriminate].
Qed.

(** *** [clearCompleted] *)

Lemma completed_keys m k :
  NoDup (map fst m) ->
  (In k (map fst (filter is_completed m)) <-> exists u, map_get m k = Some u /\ u.(status) = Completed).
Proof.
  intro Hnd. split.
  - intro H. apply in_map_iff in H. destruct H as [[k' u] [Hk Hin]]. simpl in Hk. subst k'.
    apply filter_In in Hin. destruct Hin as [Hin Hc]. exists u. split.
    + apply map_get_In_NoDup; assumption.
    + apply status_eqb_true. exact Hc.
  - intros [u [Hu Hc]]. apply (in_map fst (filter is_completed m) (k, u)).
    apply filter_In. split; [apply map_get_In; exact Hu|]. unfold is_completed. simpl.
    rewrite Hc. reflexivity.
Qed.

Lemma clear_revoked_part ids urls q cs :
  Inv ids urls q -> (forall p, In p cs -> In p q.(pendingUploads)) ->
  exists ts, flat_map (revoked_thumb q.(pendingUploads)) (map fst cs) = ts /\
    Forall2 (fun p t => (snd p).(thumbnail) = Some t) cs ts.
Proof.
  intros I. induction cs as [|[k u] cs IH]; simpl; intro Hsub; [exists []; split; constructor|].
  destruct IH as [ts [E F]]; [intros; apply Hsub; auto|].
  assert (Hu : map_get q.(pendingUploads) k = Some u).
  { apply map_get_In_NoDup; [apply (inv_keys_nodup _ _ _ I)|apply Hsub; left; reflexivity]. }
  destruct (inv_thumb _ _ _ I k u Hu) as [t (Ht & Hne & _)].
  exists (t :: ts). split.
  - unfold revoked_thumb at 1, truthy_thumbnail. rewrite Hu, Ht, eqb_neq_s by exact Hne.
    simpl. rewrite E. reflexivity.
  - constructor; [exact Ht|exact F].
Qed.

(** *** Lookups after [processQueue()] and after one event *)

Lemma pq_get q k :
  Struct q ->
  map_get (processQueue q).(pendingUploads) k = map_get q.(pendingUploads) k \/
  exists u, find (is_next q) (map_values q.(pendingUploads)) = Some u /\
    set_size q.(processingUploads) < MAX_CONCURRENT_UPLOADS /\ u.(id) = k /\
    map_get q.(pendingUploads) k = Some u /\ u.(status) = Pending /\
    map_get (processQueue q).(pendingUploads) k = Some (with_status u Processing None None).
Proof.
  intro S. destruct (pq_cases q) as [->|[u (Hs & Hf & ->)]]; [left; reflexivity|].
  destruct S as (Hnd & Hcb & Hid).
  destruct (find_values_get _ _ _ Hnd Hid Hf) as [Hg Hn].
  unfold is_next in Hn. apply andb_true_iff in Hn. destruct Hn as [Hp _].
  apply status_eqb_true in Hp.
  destruct (pu_unchanged (updateUploadStatus (set_processingUploads q (set_add (processingUploads q) (id u)))
                           (id u) Processing None None) (id u)) as (E1 & _).
  rewrite E1, upd_get. simpl. destruct (String.eqb (id u) k) eqn:E.
  - apply String.eqb_eq in E. subst k. right. exists u. rewrite Hg. repeat split; auto.
  - left. reflexivity.
Qed.

Lemma pq_get_after q k u :
  Struct q -> map_get q.(pendingUploads) k = Some u ->
  map_get (processQueue q).(pendingUploads) k = Some u \/
  (u.(status) = Pending /\ map_get (processQueue q).(pendingUploads) k = Some (with_status u Processing None None)).
Proof.
  intros S Hu. destruct (pq_get q k S) as [E|[v (_ & _ & _ & Hv & Hp & E)]].
  - left. rewrite E. exact Hu.
  - rewrite Hu in Hv. injection Hv as <-. right. auto.
Qed.

Lemma map_get_filter_NoDup (f : string * PendingUpload -> bool) m k u :
  NoDup (map fst m) -> map_get m k = Some u ->
  map_get (filter f m) k = if f (k, u) then Some u else None.
Proof.
  intros Hnd Hu. pose proof (map_get_In _ _ _ Hu) as Hin.
  destruct (f (k, u)) eqn:F.
  - apply map_get_In_NoDup; [apply NoDup_map_filter; exact Hnd|]. apply filter_In. auto.
  - apply map_get_None. intro Hk. apply in_map_iff in Hk. destruct Hk as [[k' v] [Hk Hv]].
    simpl in Hk. subst k'. apply filter_In in Hv. destruct Hv as [Hv Fv].
    rewrite (map_get_In_NoDup _ _ _ Hnd Hv) in Hu. injection Hu as ->. congruence.
Qed.

Lemma completed_key_bool m k u :
  NoDup (map fst m) -> map_get m k = Some u ->
  existsb (String.eqb k) (map fst (filter is_completed m)) = status_eqb u.(status) Completed.
Proof.
  intros Hnd Hu. destruct (status_eqb (status u) Completed) eqn:C.
  - apply existsb_eqb_In, completed_keys; [exact Hnd|]. exists u. split; [exact Hu|].
    apply status_eqb_true. exact C.
  - destruct (existsb (String.eqb k) _) eqn:E; [|reflexivity].
    apply existsb_eqb_In, completed_keys in E; [|exact Hnd]. destruct E as [v [Hv Hc]].
    rewrite Hu in Hv. injection Hv as <-. rewrite Hc in C. discriminate.
Qed.

Lemma finally_get q k k' :
  map_get (set_processingUploads q (set_delete q.(processingUploads) k)).(pendingUploads) k' =
  map_get q.(pendingUploads) k'.
Proof. reflexivity. Qed.

(** What one event does to the record of a live job [k]: keep it, delete it
    (only by its removal, or by [clearCompleted()] when it is [Completed]),
    or give it a new status through [with_status] (only when it is [Pending]
    or [Processing], or [Failed] and retried). *)
Lemma step_get ids urls q e k u :
  Inv ids urls q -> fresh_event ids urls e -> map_get q.(pendingUploads) k = Some u ->
  map_get (step q e).(pendingUploads) k = Some u \/
  (map_get (step q e).(pendingUploads) k = None /\
     (e = RemoveUpload k \/ (e = ClearCompleted /\ u.(status) = Completed))) \/
  exists st a er, map_get (step q e).(pendingUploads) k = Some (with_status u st a er) /\
     (u.(status) = Pending \/ u.(status) = Processing \/ (u.(status) = Failed /\ e = RetryUpload k)).
Proof.
  intros I Hf Hu. pose proof (inv_struct _ _ _ I) as S.
  assert (Hafter : forall q1, Struct q1 -> map_get q1.(pendingUploads) k = Some u ->
    map_get (processQueue q1).(pendingUploads) k = Some u \/
    exists st a er, map_get (processQueue q1).(pendingUploads) k = Some (with_status u st a er) /\
      (u.(status) = Pending \/ u.(status) = Processing \/ (u.(status) = Failed /\ e = RetryUpload k))).
  { intros q1 S1 H1. destruct (pq_get_after q1 k u S1 H1) as [E|[Hp E]]; [left; exact E|].
    right. do 3 eexists. split; [exact E|]. left. exact Hp. }
  assert (Hsettle : forall k' rest st a er,
    count_tasks k' q.(inflight) <> 0 ->
    map_get (processUpload_finally (updateUploadStatus (set_inflight q rest) k' st a er) k').(pendingUploads) k = Some u \/
    exists st' a' er', map_get (processUpload_finally (updateUploadStatus (set_inflight q rest) k' st a er) k').(pendingUploads) k
                       = Some (with_status u st' a' er') /\
      (u.(status) = Pending \/ u.(status) = Processing \/ (u.(status) = Failed /\ e = RetryUpload k))).
  { intros k' rest st a er Hc. unfold processUpload_finally.
    set (q2 := updateUploadStatus (set_inflight q rest) k' st a er).
    assert (S2 : Struct (set_processingUploads q2 (set_delete q2.(processingUploads) k'))).
    { apply (struct_same q2); try reflexivity. apply struct_update.
      apply (struct_same q); try reflexivity. exact S. }
    destruct (String.eqb k' k) eqn:E.
    - apply String.eqb_eq in E. subst k'.
      pose proof (inv_task_processing _ _ _ _ _ I Hu Hc) as Hp.
      assert (G : map_get (set_processingUploads q2 (set_delete q2.(processingUploads) k)).(pendingUploads) k
                  = Some (with_status u st a er)).
      { rewrite finally_get. unfold q2. rewrite upd_get, eqb_refl_s. simpl. rewrite Hu. reflexivity. }
      destruct (pq_get_after _ k _ S2 G) as [G'|[_ G']]; right; do 3 eexists; split;
        [exact G'| |exact G'|]; right; left; exact Hp.
    - apply Hafter; [exact S2|]. rewrite finally_get. unfold q2. rewrite upd_get, E. exact Hu. }
  destruct e as [uid f now thumb cb|uid|uid| |uid r|uid r]; simpl in Hf; cbv beta iota delta [step].
  - destruct Hf as (H1 & H2 & H3).
    assert (Hne : uid <> k).
    { intro; subst uid. apply H1. apply (inv_keys_issued _ _ _ I).
      apply (in_keys_get_any _ k). eauto. }
    rewrite addUpload_unfold.
    assert (Hpre : map_get (addUpload_pre q uid f now thumb cb).(pendingUploads) k = Some u).
    { simpl. rewrite map_get_set, eqb_neq_s by exact Hne. exact Hu. }
    destruct (Hafter _ (inv_struct _ _ _ (inv_add_pre _ _ _ uid f now thumb cb I H1 H2 H3)) Hpre)
      as [E|E]; [left; exact E|right; right; exact E].
  - destruct (remove_fields q uid) as (E1 & _). rewrite E1, map_get_delete.
    destruct (String.eqb uid k) eqn:E.
    + apply String.eqb_eq in E. subst uid. right. left. split; [reflexivity|left; reflexivity].
    + left. exact Hu.
  - unfold retryUpload. destruct (map_get (pendingUploads q) uid) as [v|] eqn:Hv; [|left; exact Hu].
    destruct (negb (status_eqb (status v) Failed)) eqn:Hs; [left; exact Hu|].
    assert (S1 : Struct (updateUploadStatus q uid Pending None None)) by (apply struct_update; exact S).
    destruct (String.eqb uid k) eqn:E.
    + apply String.eqb_eq in E. subst uid. rewrite Hu in Hv. injection Hv as <-.
      assert (Hfl : u.(status) = Failed).
      { apply negb_false_iff, status_eqb_true in Hs. exact Hs. }
      assert (G : map_get (updateUploadStatus q k Pending None None).(pendingUploads) k
                  = Some (with_status u Pending None None)).
      { rewrite upd_get, eqb_refl_s, Hu. reflexivity. }
      right. right. destruct (pq_get_after _ k _ S1 G) as [G'|[_ G']]; do 3 eexists; split;
        [exact G'| |exact G'|]; right; right; split; auto.
    + destruct (Hafter _ S1) as [E'|E']; [rewrite upd_get, E; exact Hu|left; exact E'|].
      right. right. exact E'.
  - destruct (remove_all_fields (map fst (filter (fun p => status_eqb (snd p).(status) Completed)
                                   q.(pendingUploads))) q) as (F1 & _).
    unfold clearCompleted. rewrite F1.
    rewrite (map_get_filter_NoDup _ _ k u (inv_keys_nodup _ _ _ I) Hu). simpl.
    pose proof (completed_key_bool _ k u (inv_keys_nodup _ _ _ I) Hu) as Ck.
    unfold is_completed in Ck. rewrite Ck.
    destruct (status_eqb (status u) Completed) eqn:C; simpl.
    + right. left. split; [reflexivity|right; split; [reflexivity|apply status_eqb_true; exact C]].
    + left. reflexivity.
  - destruct (take_reading (inflight q) uid) as [[f rest]|] eqn:T; [|left; exact Hu].
    destruct (take_reading_spec _ _ _ _ T) as (Hc & _). destruct r as [b64|]; simpl.
    + left. exact Hu.
    + unfold processUpload_catch.
      destruct (Hsettle uid rest Failed None (Some (errorMessage (ErrorObj "Failed to read file"))))
        as [E|E]; [rewrite Hc; discriminate|left; exact E|right; right; exact E].
  - destruct (take_extracting (inflight q) uid) as [rest|] eqn:T; [|left; exact Hu].
    destruct (take_extracting_spec _ _ _ T) as (Hc & _). destruct r as [addrs|ex]; simpl.
    + destruct (Hsettle uid rest Completed (Some addrs) None) as [E|E];
        [rewrite Hc; discriminate|left; exact E|right; right; exact E].
    + unfold processUpload_catch.
      destruct (Hsettle uid rest Failed None (Some (errorMessage ex))) as [E|E];
        [rewrite Hc; discriminate|left; exact E|right; right; exact E].
Qed.

Lemma find_app_none {A} (p : A -> bool) l l' : find p l = None -> find p (l ++ l') = find p l'.
Proof.
  induction l as [|x l IH]; simpl; [reflexivity|]. destruct (p x); [discriminate|exact IH].
Qed.

Lemma find_app_some {A} (p : A -> bool) l l' x : find p l = Some x -> find p (l ++ l') = Some x.
Proof.
  induction l as [|y l IH]; simpl; [discriminate|]. destruct (p y); [exact (fun H => H)|exact IH].
Qed.

Lemma struct_ids_keys q : Struct q -> map id (map_values q.(pendingUploads)) = map fst q.(pendingUploads).
Proof.
  intros (Hnd & _ & Hid). apply map_id_values. intros k u Hin. apply Hid.
  apply map_get_In_NoDup; assumption.
Qed.

Lemma values_delete (m : JsMap PendingUpload) k :
  (forall k' u, In (k', u) m -> u.(id) = k') ->
  map_values (map_delete m k) = filter (fun u => negb (String.eqb u.(id) k)) (map_values m).
Proof.
  unfold map_values, map_delete. induction m as [|[k' u] m IH]; simpl; intro H; [reflexivity|].
  rewrite (H k' u (or_introl eq_refl)). destruct (String.eqb k' k); simpl; f_equal; apply IH;
    intros; eapply H; eauto.
Qed.

Lemma pq_full q : MAX_CONCURRENT_UPLOADS <= set_size q.(processingUploads) -> processQueue q = q.
Proof. intro H. unfold processQueue. apply Nat.leb_le in H. rewrite H. reflexivity. Qed.

Lemma pq_admits q u :
  Struct q -> set_size q.(processingUploads) < MAX_CONCURRENT_UPLOADS ->
  find (is_next q) (map_values q.(pendingUploads)) = Some u ->
  map_get (processQueue q).(pendingUploads) u.(id) = Some (with_status u Processing None None) /\
  forall k, k <> u.(id) -> map_get (processQueue q).(pendingUploads) k = map_get q.(pendingUploads) k.
Proof.
  intros (Hnd & Hcb & Hid) Hs Hf. destruct (find_values_get _ _ _ Hnd Hid Hf) as [Hg _].
  unfold processQueue. apply Nat.leb_gt in Hs. rewrite Hs, Hf. cbv zeta.
  destruct (pu_unchanged (updateUploadStatus (set_processingUploads q (set_add (processingUploads q) (id u)))
                           (id u) Processing None None) (id u)) as (E1 & _).
  rewrite E1. split.
  - rewrite upd_get, eqb_refl_s. simpl. rewrite Hg. reflexivity.
  - intros k Hk. rewrite upd_get, eqb_neq_s by auto. reflexivity.
Qed.

(** *** [app_upsert] and [handleImageUpload] *)

Lemma upsert_ids_same prev (u : PendingUpload) :
  map id (map (fun v => if String.eqb v.(id) u.(id) then u else v) prev) = map id prev.
Proof.
  induction prev as [|v prev IH]; simpl; [reflexivity|].
  rewrite IH. destruct (String.eqb v.(id) u.(id)) eqn:E; [|reflexivity].
  apply String.eqb_eq in E. rewrite E. reflexivity.
Qed.

Lemma upsert_filter_other prev (u : PendingUpload) k :
  k <> u.(id) ->
  filter (fun v => String.eqb v.(id) k) (map (fun v => if String.eqb v.(id) u.(id) then u else v) prev) =
  filter (fun v => String.eqb v.(id) k) prev.
Proof.
  intro Hk. induction prev as [|v prev IH]; simpl; [reflexivity|].
  destruct (String.eqb v.(id) u.(id)) eqn:E.
  - apply String.eqb_eq in E. rewrite E, (eqb_neq_s (id u) k) by auto. exact IH.
  - rewrite IH. reflexivity.
Qed.

Lemma filter_id_absent (l : list PendingUpload) k :
  ~ In k (map id l) -> filter (fun v => String.eqb v.(id) k) l = [].
Proof.
  induction l as [|v l IH]; simpl; [reflexivity|]. intro H.
  rewrite eqb_neq_s by auto. apply IH. auto.
Qed.

Lemma upsert_filter_self prev (u : PendingUpload) :
  NoDup (map id prev) -> In u.(id) (map id prev) ->
  filter (fun v => String.eqb v.(id) u.(id)) (map (fun v => if String.eqb v.(id) u.(id) then u else v) prev) = [u].
Proof.
  induction prev as [|v prev IH]; simpl; [tauto|]. intros Hnd Hin.
  inversion Hnd as [|? ? Hn Hnd']; subst.
  destruct (String.eqb v.(id) u.(id)) eqn:E.
  - apply String.eqb_eq in E. simpl. rewrite eqb_refl_s. f_equal.
    apply filter_id_absent. rewrite upsert_ids_same. rewrite <- E. exact Hn.
  - destruct Hin as [Hin|Hin]; [rewrite Hin, eqb_refl_s in E; discriminate|].
    simpl. rewrite E. apply IH; assumption.
Qed.

Lemma find_id_existsb (l : list PendingUpload) k :
  (exists x, find (fun u => String.eqb u.(id) k) l = Some x) <-> In k (map id l).
Proof.
  split.
  - intros [x Hx]. apply find_some in Hx. destruct Hx as [Hx E]. apply String.eqb_eq in E.
    subst. apply in_map. exact Hx.
  - intro H. apply in_map_iff in H. destruct H as [x [<- Hx]].
    destruct (find (fun u => String.eqb u.(id) x.(id)) l) as [y|] eqn:F; [eauto|].
    exfalso. pose proof (find_none _ _ F x Hx) as E. simpl in E. rewrite eqb_refl_s in E. discriminate.
Qed.

Lemma app_upsert_filter_other prev (u : PendingUpload) k :
  k <> u.(id) ->
  filter (fun v => String.eqb v.(id) k) (app_upsert prev u) = filter (fun v => String.eqb v.(id) k) prev.
Proof.
  intro Hk. unfold app_upsert. destruct (find _ prev).
  - apply upsert_filter_other. exact Hk.
  - rewrite filter_app. simpl. rewrite (eqb_neq_s (id u) k) by auto. apply app_nil_r.
Qed.

Lemma app_upsert_absent prev (u : PendingUpload) : ~ In u.(id) (map id prev) -> app_upsert prev u = prev ++ [u].
Proof.
  intro H. unfold app_upsert. destruct (find _ prev) eqn:F; [|reflexivity].
  exfalso. apply H. apply find_id_existsb. eauto.
Qed.

Lemma skipn_app_exact {A} (l l' : list A) : skipn (length l) (l ++ l') = l'.
Proof. induction l as [|x l IH]; simpl; auto. Qed.

Lemma pq_notifications q :
  Struct q ->
  exists l, (processQueue q).(notifications) = q.(notifications) ++ l /\
    map snd l =
      match (if Nat.ltb (set_size q.(processingUploads)) MAX_CONCURRENT_UPLOADS
             then find (is_next q) (map_values q.(pendingUploads)) else None) with
      | Some v => [with_status v Processing None None]
      | None => []
      end.
Proof.
  intros (Hnd & Hcb & Hid). unfold processQueue.
  destruct (Nat.leb MAX_CONCURRENT_UPLOADS (set_size q.(processingUploads))) eqn:L.
  - apply Nat.leb_le in L. apply Nat.ltb_ge in L. rewrite L. exists []. rewrite app_nil_r. auto.
  - apply Nat.leb_gt in L. apply Nat.ltb_lt in L. rewrite L.
    destruct (find (is_next q) (map_values q.(pendingUploads))) as [v|] eqn:F;
      [|exists []; rewrite app_nil_r; auto].
    destruct (find_values_get _ _ _ Hnd Hid F) as [Hg _].
    assert (Hc : exists cb, map_get q.(callbacks) v.(id) = Some cb).
    { apply in_keys_get_any. rewrite Hcb. apply in_keys_get_any. eauto. }
    destruct Hc as [cb Hc]. cbv zeta.
    destruct (pu_unchanged (updateUploadStatus (set_processingUploads q (set_add (processingUploads q) (id v)))
                             (id v) Processing None None) (id v)) as (_ & _ & _ & E4 & _).
    rewrite E4, upd_notifications. simpl. rewrite Hg, Hc. exists [(cb, with_status v Processing None None)].
    auto.
Qed.

(** *** The webhook *)

Lemma try_block_retry tem rc r d :
  try_block tem rc r = TRetry d -> rc < 2 /\ (d = 1000 \/ d = 2 ^ rc * 1000).
Proof.
  destruct r as [e|status stt [v|e]]; simpl; [discriminate| |].
  - destruct (negb (response_ok status)).
    + destruct (Nat.eqb status 429 && Nat.ltb rc 2) eqn:B; [|discriminate].
      injection 1 as <-. apply andb_true_iff in B. destruct B as [_ B]. apply Nat.ltb_lt in B. auto.
    + unfold handle_result. destruct v; try discriminate.
      * destruct (Nat.eqb _ 0 && Nat.ltb rc 2) eqn:B; [|discriminate].
        injection 1 as <-. apply andb_true_iff in B. destruct B as [_ B]. apply Nat.ltb_lt in B. auto.
      * destruct (success_false props).
        { destruct (option_map json_to_string (error_message props)) as [[m|]|]; discriminate. }
        destruct (select_addresses props) as [a|]; [|discriminate].
        destruct (negb (forallb is_string a)); [discriminate|].
        destruct (Nat.eqb _ 0 && Nat.ltb rc 2) eqn:B; [|discriminate].
        injection 1 as <-. apply andb_true_iff in B. destruct B as [_ B]. apply Nat.ltb_lt in B. auto.
  - destruct (negb (response_ok status)); [|discriminate].
    destruct (Nat.eqb status 429 && Nat.ltb rc 2) eqn:B; [|discriminate].
    injection 1 as <-. apply andb_true_iff in B. destruct B as [_ B]. apply Nat.ltb_lt in B. auto.
Qed.

Lemma filter_nonblank_all l : Forall (fun s => nonblank s = true) (filter nonblank l).
Proof. apply Forall_forall. intros x Hx. apply filter_In in Hx. apply Hx. Qed.

Lemma strings_of_valid items : Forall (fun s => nonblank s = true) (strings_of (filter valid_string items)).
Proof.
  induction items as [|v items IH]; simpl; [constructor|].
  destruct (valid_string v) eqn:V; [|exact IH].
  destruct v; try discriminate. simpl. constructor; [exact V|exact IH].
Qed.

Lemma try_block_return tem rc r a :
  try_block tem rc r = TReturn a -> Forall (fun s => nonblank s = true) a /\ (a = [] -> 2 <= rc).
Proof.
  destruct r as [e|status stt [v|e]]; simpl; [discriminate| |].
  - destruct (negb (response_ok status)).
    + destruct (Nat.eqb status 429 && Nat.ltb rc 2); discriminate.
    + unfold handle_result. destruct v; try discriminate.
      * destruct (Nat.eqb _ 0 && Nat.ltb rc 2) eqn:B; [discriminate|].
        injection 1 as <-. split; [apply strings_of_valid|]. intro E. rewrite E in B. simpl in B.
        apply Nat.ltb_ge in B. exact B.
      * destruct (success_false props).
        { destruct (option_map json_to_string (error_message props)) as [[m|]|]; discriminate. }
        destruct (select_addresses props) as [xs|]; [|discriminate].
        destruct (negb (forallb is_string xs)); [discriminate|].
        destruct (Nat.eqb _ 0 && Nat.ltb rc 2) eqn:B; [discriminate|].
        injection 1 as <-. split; [apply filter_nonblank_all|]. intro E. rewrite E in B. simpl in B.
        apply Nat.ltb_ge in B. exact B.
  - destruct (negb (response_ok status)); [|discriminate].
    destruct (Nat.eqb status 429 && Nat.ltb rc 2); discriminate.
Qed.

Lemma catch_error_normal e :
  exists n m, catch_error e = JsError n m /\ jstr_eqb n (js "AbortError") = false /\
    js_includes m (js "fetch") = false.
Proof.
  destruct e as [n m|]; simpl.
  - destruct (jstr_eqb n (js "AbortError")) eqn:A.
    + eexists _, _. split; [reflexivity|]. split; reflexivity.
    + destruct (js_includes m (js "fetch")) eqn:F.
      * eexists _, _. split; [reflexivity|]. split; reflexivity.
      * exists n, m. auto.
  - eexists _, _. split; [reflexivity|]. split; reflexivity.
Qed.

Lemma count_fetches_shape b m ds :
  count_fetches (Fetch b m :: flat_map (fun d => [Sleep d; Fetch b m]) ds) = S (length ds).
Proof.
  unfold count_fetches. induction ds as [|d ds IH]; simpl in *; [reflexivity|]. rewrite IH. reflexivity.
Qed.

(** *** [fileToBase64] *)

Lemma split_no_sep (c : N) (s : jstr) : ~ In c s -> js_split c s = [s].
Proof.
  induction s as [|x s IH]; simpl; [reflexivity|]. intro H.
  rewrite (proj2 (N.eqb_neq x c)) by auto. rewrite IH by auto. reflexivity.
Qed.

Lemma split_first (c : N) (p r : jstr) : ~ In c p -> js_split c (p ++ c :: r) = p :: js_split c r.
Proof.
  induction p as [|x p IH]; simpl; intro H.
  - rewrite N.eqb_refl. reflexivity.
  - rewrite (proj2 (N.eqb_neq x c)) by auto. rewrite IH by auto. reflexivity.
Qed.

Lemma first_occurrence (c : N) (s : jstr) : In c s -> exists p r, s = p ++ c :: r /\ ~ In c p.
Proof.
  induction s as [|x s IH]; simpl; [tauto|]. intro H.
  destruct (N.eq_dec x c) as [<-|Hne].
  - exists [], s. simpl. auto.
  - destruct H as [H|H]; [congruence|]. destruct (IH H) as [p [r [-> Hp]]].
    exists (x :: p), r. simpl. split; [reflexivity|]. intros [E|E]; auto.
Qed.

(** *** Admission order across the events *)

Lemma nodup_prefix (l1 l2 m1 m2 : list string) x :
  NoDup (l1 ++ x :: l2) -> l1 ++ x :: l2 = m1 ++ x :: m2 -> l1 = m1.
Proof.
  revert m1. induction l1 as [|a l1 IH]; intros [|b m1] Hnd E; simpl in *.
  - reflexivity.
  - injection E as E1 E2. subst b. apply NoDup_cons_iff in Hnd as [Hn _].
    exfalso. apply Hn. rewrite E2. apply in_or_app. right. left. reflexivity.
  - injection E as E1 E2. subst a. apply NoDup_cons_iff in Hnd as [Hn _].
    exfalso. apply Hn. apply in_or_app. right. left. reflexivity.
  - injection E as E1 E2. subst b. f_equal. apply NoDup_cons_iff in Hnd as [_ Hnd'].
    apply IH; assumption.
Qed.

Lemma find_split {A} (p : A -> bool) l u :
  find p l = Some u -> exists a b, l = a ++ u :: b /\ forall x, In x a -> p x = false.
Proof.
  induction l as [|x l IH]; simpl; [discriminate|].
  destruct (p x) eqn:E.
  - injection 1 as <-. exists [], l. simpl. split; [reflexivity|tauto].
  - intro H. destruct (IH H) as (a & b & -> & Ha). exists (x :: a), b.
    split; [reflexivity|]. intros y [<-|Hy]; auto.
Qed.

Lemma inv_pending_free ids urls q k u :
  Inv ids urls q -> map_get q.(pendingUploads) k = Some u -> u.(status) = Pending ->
  ~ In k q.(processingUploads).
Proof.
  intros I Hu Hp Hin. apply (inv_set_proc _ _ _ I) in Hin. destruct Hin as [w [Hw Hs]].
  rewrite Hu in Hw. injection Hw as <-. congruence.
Qed.

(** When [processQueue()] runs on a state in which no [Pending] job holds a
    slot and admits [w], every job listed before [w] is not [Pending]. *)
Lemma pq_fifo q l1 w l2 :
  Struct q ->
  (forall k u, map_get q.(pendingUploads) k = Some u -> u.(status) = Pending ->
     ~ In k q.(processingUploads)) ->
  getAllUploads (processQueue q) = l1 ++ w :: l2 -> w.(status) = Processing ->
  (forall u, map_get q.(pendingUploads) w.(id) = Some u -> u.(status) <> Processing) ->
  forall v, In v l1 -> v.(status) <> Pending.
Proof.
  intros S Hfree Hall Hw Hnot v Hv. unfold getAllUploads in Hall.
  pose proof (proj2 (proj2 (notif_processQueue q S))) as S'.
  assert (Gw : map_get (processQueue q).(pendingUploads) w.(id) = Some w).
  { apply struct_values_get; [exact S'|]. rewrite Hall. apply in_or_app. right. left. reflexivity. }
  destruct (pq_cases q) as [E|[u (Hs & Hf & _)]].
  - exfalso. rewrite E in Gw. exact (Hnot w Gw Hw).
  - destruct (pq_admits q u S Hs Hf) as [_ Go].
    assert (Hwu : w.(id) = u.(id)).
    { destruct (String.eqb w.(id) u.(id)) eqn:Ew; [apply String.eqb_eq; exact Ew|].
      apply String.eqb_neq in Ew. rewrite (Go _ Ew) in Gw. exfalso. exact (Hnot w Gw Hw). }
    destruct (find_split _ _ _ Hf) as (a & b & Ea & Ha).
    assert (Ids : map id (l1 ++ w :: l2) = map id (a ++ u :: b)).
    { rewrite <- Hall, <- Ea. rewrite (struct_ids_keys _ S'), (struct_ids_keys _ S), pq_keys.
      reflexivity. }
    rewrite !map_app in Ids. simpl in Ids. rewrite Hwu in Ids.
    assert (Nd0 : NoDup (map id a ++ u.(id) :: map id b)).
    { pose proof (struct_ids_nodup q S) as N. rewrite Ea, map_app in N. exact N. }
    assert (Nd : NoDup (map id l1 ++ u.(id) :: map id l2)) by (rewrite Ids; exact Nd0).
    pose proof (nodup_prefix _ _ _ _ _ Nd Ids) as P.
    assert (Hvid : In v.(id) (map id a)) by (rewrite <- P; apply in_map; exact Hv).
    apply in_map_iff in Hvid. destruct Hvid as [x [Ex Hx]].
    assert (Gx : map_get q.(pendingUploads) x.(id) = Some x).
    { apply struct_values_get; [exact S|]. rewrite Ea. apply in_or_app. left. exact Hx. }
    assert (Nx : x.(id) <> u.(id)).
    { intro E'. apply (NoDup_remove_2 _ _ _ Nd0). rewrite <- E'. apply in_or_app. left.
      apply in_map. exact Hx. }
    assert (Gv : map_get (processQueue q).(pendingUploads) v.(id) = Some v).
    { apply struct_values_get; [exact S'|]. rewrite Hall. apply in_or_app. left. exact Hv. }
    rewrite <- Ex, (Go _ Nx), Gx in Gv. injection Gv as <-.
    intro Hp. pose proof (Ha x Hx) as Hn. unfold is_next in Hn. rewrite Hp in Hn. simpl in Hn.
    apply negb_false_iff in Hn. apply (Hfree _ _ Gx Hp). apply set_has_In. exact Hn.
Qed.

(** A step that does not run [processQueue()]: a state with the invariant
    whose records are records of the state before. *)
Lemma keep_shape ids urls q q' :
  Inv ids urls q' ->
  (forall k u, map_get q'.(pendingUploads) k = Some u -> map_get q.(pendingUploads) k = Some u) ->
  exists q1, Struct q1 /\
    (forall k u, map_get q1.(pendingUploads) k = Some u -> u.(status) = Pending ->
       ~ In k q1.(processingUploads)) /\
    (forall k u, map_get q1.(pendingUploads) k = Some u -> u.(status) = Processing ->
       exists u0, map_get q.(pendingUploads) k = Some u0 /\ u0.(status) = Processing) /\
    (q' = q1 \/ q' = processQueue q1).
Proof.
  intros I Hg. exists q'. split; [exact (inv_struct _ _ _ I)|]. split; [|split; [|left; reflexivity]].
  - intros k u Hu Hp. exact (inv_pending_free _ _ _ _ _ I Hu Hp).
  - intros k u Hu Hp. exists u. auto.
Qed.

(** The state the [finally] of a settled attempt hands to [processQueue()]. *)
Lemma finally_shape ids urls q rest k st a e :
  Inv ids urls q -> st <> Pending -> st <> Processing ->
  exists q1, Struct q1 /\
    (forall k' u, map_get q1.(pendingUploads) k' = Some u -> u.(status) = Pending ->
       ~ In k' q1.(processingUploads)) /\
    (forall k' u, map_get q1.(pendingUploads) k' = Some u -> u.(status) = Processing ->
       exists u0, map_get q.(pendingUploads) k' = Some u0 /\ u0.(status) = Processing) /\
    processUpload_finally (updateUploadStatus (set_inflight q rest) k st a e) k = processQueue q1.
Proof.
  intros I Hp Hq.
  set (q2 := updateUploadStatus (set_inflight q rest) k st a e).
  set (q1 := set_processingUploads q2 (set_delete q2.(processingUploads) k)).
  assert (S0 : Struct (set_inflight q rest)) by (apply (struct_same q); try reflexivity; apply (inv_struct _ _ _ I)).
  assert (S1 : Struct q1) by (apply (struct_same q2); try reflexivity; apply struct_update; exact S0).
  assert (G : forall k', map_get q1.(pendingUploads) k' =
            if String.eqb k k' then option_map (fun u => with_status u st a e) (map_get q.(pendingUploads) k)
            else map_get q.(pendingUploads) k').
  { intro k'. simpl. unfold q2. rewrite upd_get. reflexivity. }
  assert (P : q1.(processingUploads) = set_delete q.(processingUploads) k).
  { simpl. unfold q2. rewrite upd_processing. reflexivity. }
  exists q1. split; [exact S1|]. split; [|split; [|reflexivity]].
  - intros k' u Hu Hs Hin. rewrite P, In_set_delete in Hin. destruct Hin as [Hin Hne].
    rewrite G, eqb_neq_s in Hu by congruence.
    exact (inv_pending_free _ _ _ _ _ I Hu Hs Hin).
  - intros k' u Hu Hs. rewrite G in Hu. destruct (String.eqb k k') eqn:E; [|eauto].
    destruct (map_get q.(pendingUploads) k); simpl in Hu; [|discriminate].
    injection Hu as <-. simpl in Hs. contradiction.
Qed.

Lemma remove_all_get ks q k u :
  map_get (fold_left removeUpload ks q).(pendingUploads) k = Some u ->
  map_get q.(pendingUploads) k = Some u.
Proof.
  revert q. induction ks as [|k0 ks IH]; simpl; intros q H; [exact H|].
  apply IH in H. rewrite (proj1 (remove_fields q k0)), map_get_delete in H.
  destruct (String.eqb k0 k); [discriminate|exact H].
Qed.

(** Every event either leaves [processQueue()] alone, or runs it on a state
    in which no [Pending] job holds a slot and every [Processing] job was
    already [Processing] before the event. *)
Lemma step_pq_shape ids urls q e :
  Inv ids urls q -> fresh_event ids urls e ->
  exists q1, Struct q1 /\
    (forall k u, map_get q1.(pendingUploads) k = Some u -> u.(status) = Pending ->
       ~ In k q1.(processingUploads)) /\
    (forall k u, map_get q1.(pendingUploads) k = Some u -> u.(status) = Processing ->
       exists u0, map_get q.(pendingUploads) k = Some u0 /\ u0.(status) = Processing) /\
    (step q e = q1 \/ step q e = processQueue q1).
Proof.
  intros I Hf. destruct e as [uid f now thumb cb|uid|uid| |uid r|uid r].
  - destruct Hf as (H1 & H2 & H3).
    pose proof (inv_add_pre ids urls q uid f now thumb cb I H1 H2 H3) as I1.
    exists (addUpload_pre q uid f now thumb cb). split; [exact (inv_struct _ _ _ I1)|].
    split; [|split; [|right; apply addUpload_unfold]].
    + intros k u Hu Hp. exact (inv_pending_free _ _ _ _ _ I1 Hu Hp).
    + intros k u Hu Hp. unfold addUpload_pre in Hu. simpl in Hu. rewrite map_get_set in Hu.
      destruct (String.eqb uid k); [|eauto]. injection Hu as <-. discriminate Hp.
  - apply (keep_shape ids urls); [apply (inv_remove ids urls q uid I)|].
    intros k u Hu. change (step q (RemoveUpload uid)) with (removeUpload q uid) in Hu.
    rewrite (proj1 (remove_fields q uid)), map_get_delete in Hu.
    destruct (String.eqb uid k); [discriminate|exact Hu].
  - change (step q (RetryUpload uid)) with (retryUpload q uid). unfold retryUpload.
    destruct (map_get q.(pendingUploads) uid) as [u|] eqn:Hu; [|apply (keep_shape ids urls q q I); auto].
    destruct (negb (status_eqb u.(status) Failed)) eqn:Hn; [apply (keep_shape ids urls q q I); auto|].
    assert (Hs : u.(status) = Failed) by (destruct (status u); try reflexivity; discriminate Hn).
    pose proof (inv_update_pending ids urls q uid u I Hu Hs) as I1.
    exists (updateUploadStatus q uid Pending None None). split; [exact (inv_struct _ _ _ I1)|].
    split; [|split; [|right; reflexivity]].
    + intros k v Hv Hp. exact (inv_pending_free _ _ _ _ _ I1 Hv Hp).
    + intros k v Hv Hp. rewrite upd_get in Hv. destruct (String.eqb uid k); [|eauto].
      rewrite Hu in Hv. injection Hv as <-. discriminate Hp.
  - apply (keep_shape ids urls); [apply (inv_step ids urls q ClearCompleted I Hf)|].
    intros k u Hu. exact (remove_all_get _ _ _ _ Hu).
  - unfold step. destruct (take_reading q.(inflight) uid) as [[f rest]|] eqn:T;
      [|apply (keep_shape ids urls q q I); auto].
    destruct r as [b|].
    + apply (keep_shape ids urls); [apply inv_readok; assumption|]. intros k u Hu. exact Hu.
    + destruct (finally_shape ids urls q rest uid Failed None
                  (Some (errorMessage (ErrorObj "Failed to read file"))) I
                  ltac:(discriminate) ltac:(discriminate)) as (q1 & A & B & C & D).
      exists q1. split; [exact A|]. split; [exact B|]. split; [exact C|]. right. exact D.
  - unfold step. destruct (take_extracting q.(inflight) uid) as [rest|] eqn:T;
      [|apply (keep_shape ids urls q q I); auto].
    destruct r as [addrs|ex].
    + destruct (finally_shape ids urls q rest uid Completed (Some addrs) None I
                  ltac:(discriminate) ltac:(discriminate)) as (q1 & A & B & C & D).
      exists q1. split; [exact A|]. split; [exact B|]. split; [exact C|]. right. exact D.
    + destruct (finally_shape ids urls q rest uid Failed None (Some (errorMessage ex)) I
                  ltac:(discriminate) ltac:(discriminate)) as (q1 & A & B & C & D).
      exists q1. split; [exact A|]. split; [exact B|]. split; [exact C|]. right. exact D.
Qed.

Lemma map_fst_filter {V} (g : string -> bool) (m : JsMap V) :
  map fst (filter (fun p => g (fst p)) m) = filter g (map fst m).
Proof.
  induction m as [|[k v] m IH]; simpl; [reflexivity|].
  destruct (g k); simpl; congruence.
Qed.

(** The job keys after an event: those before it that it keeps, in their
    order, then the new job of an [addUpload]. *)
Lemma step_keys ids urls q e :
  Inv ids urls q -> fresh_event ids urls e ->
  exists p, map fst (step q e).(pendingUploads) =
    filter p (map fst q.(pendingUploads)) ++
    match e with AddUpload uid _ _ _ _ => [uid] | _ => [] end.
Proof.
  intros I Hf.
  assert (Same : map fst (step q e).(pendingUploads) = map fst q.(pendingUploads) ->
                 match e with AddUpload _ _ _ _ _ => False | _ => True end ->
                 exists p, map fst (step q e).(pendingUploads) =
                   filter p (map fst q.(pendingUploads)) ++
                   match e with AddUpload uid _ _ _ _ => [uid] | _ => [] end).
  { intros E Ne. exists (fun _ => true). rewrite filter_all_true by auto.
    destruct e; try contradiction; rewrite app_nil_r; exact E. }
  destruct e as [uid f now thumb cb|uid|uid| |uid r|uid r].
  - destruct Hf as (H1 & H2 & H3). exists (fun _ => true). rewrite filter_all_true by auto.
    change (step q (AddUpload uid f now thumb cb)) with (addUpload q uid f now thumb cb).
    rewrite addUpload_unfold, pq_keys. unfold addUpload_pre. simpl. rewrite map_keys_set.
    destruct (map_has q.(pendingUploads) uid) eqn:Hh; [|reflexivity].
    exfalso. apply map_has_In in Hh. exact (H1 (inv_keys_issued _ _ _ I _ Hh)).
  - exists (fun k' => negb (String.eqb k' uid)). rewrite app_nil_r.
    change (step q (RemoveUpload uid)) with (removeUpload q uid).
    rewrite (proj1 (remove_fields q uid)). apply map_keys_delete.
  - apply Same; [|trivial]. change (step q (RetryUpload uid)) with (retryUpload q uid).
    unfold retryUpload. destruct (map_get q.(pendingUploads) uid); [|reflexivity].
    destruct (negb _); [reflexivity|]. rewrite pq_keys, upd_keys. reflexivity.
  - set (ks := map fst (filter (fun p => status_eqb (snd p).(status) Completed) q.(pendingUploads))).
    exists (fun k => negb (existsb (String.eqb k) ks)). rewrite app_nil_r.
    change (step q ClearCompleted) with (fold_left removeUpload ks q).
    rewrite (proj1 (remove_all_fields ks q)).
    exact (map_fst_filter (fun k => negb (existsb (String.eqb k) ks)) q.(pendingUploads)).
  - apply Same; [|trivial]. unfold step.
    destruct (take_reading q.(inflight) uid) as [[f rest]|]; [|reflexivity].
    destruct r as [b|]; [reflexivity|].
    unfold processUpload_afterRead, processUpload_catch, processUpload_finally.
    rewrite pq_keys. simpl. rewrite upd_keys. reflexivity.
  - apply Same; [|trivial]. unfold step.
    destruct (take_extracting q.(inflight) uid) as [rest|]; [|reflexivity].
    destruct r as [addrs|ex];
      unfold processUpload_afterExtract, processUpload_catch, processUpload_finally;
      rewrite pq_keys; simpl; rewrite upd_keys; reflexivity.
Qed.

Lemma filter_has_keys (m : JsMap PendingUpload) l p extra :
  map fst m = filter p l ++ extra -> (forall k, In k extra -> ~ In k l) ->
  filter (fun k => map_has m k) l = filter p l.
Proof.
  intros E Hx. apply filter_ext_in. intros k Hk.
  destruct (p k) eqn:Pk.
  - apply map_has_In. rewrite E. apply in_or_app. left. apply filter_In. auto.
  - destruct (map_has m k) eqn:Hm; [|reflexivity].
    apply map_has_In in Hm. rewrite E in Hm. apply in_app_or in Hm.
    destruct Hm as [Hm|Hm].
    + apply filter_In in Hm. destruct Hm as [_ Hm]. congruence.
    + exfalso. exact (Hx k Hm Hk).
Qed.

(** ** Claims *)

(** C4: in every event of a reachable queue, the notifications delivered
    for a job go to the callback registered for it at [addUpload] and are,
    in order, one per status transition it makes
    (pending->processing, processing->completed, processing->failed,
    failed->pending): they form a chain of legal transitions from its status
    before the event to its status after it.  A job created by the event
    starts in [Pending] without a notification; a job that is absent after
    the event (removed, or never created) receives none. *)
Theorem C4_one_notification_per_transition ids urls q e :
  reachable ids urls q -> fresh_event ids urls e -> notif_ok q (step q e).
Proof.
  intros R Hf. pose proof (reachable_inv _ _ _ R) as I.
  destruct e as [uid f now thumb cb|uid|uid| |uid r|uid r]; simpl in Hf |- *.
  - destruct Hf as (H1 & H2 & H3). rewrite addUpload_unfold.
    pose proof (inv_add_pre _ _ _ uid f now thumb cb I H1 H2 H3) as I2.
    destruct (notif_processQueue _ (inv_struct _ _ _ I2)) as (N & F & _).
    eapply notif_frame_trans; [apply (notif_add_pre ids urls)| |]; eauto.
  - destruct (quiet_remove q uid) as [N H]. apply notif_quiet; auto.
  - unfold retryUpload. destruct (map_get (pendingUploads q) uid) as [u|] eqn:Hu;
      [|apply notif_refl; reflexivity].
    destruct (status u) eqn:Hs; simpl; try (apply notif_refl; reflexivity).
    destruct (notif_update q uid Pending None None (inv_struct _ _ _ I)) as (N1 & F1 & S1).
    { rewrite Hu. injection 1 as <-. rewrite Hs. reflexivity. }
    destruct (notif_processQueue _ S1) as (N2 & F2 & _).
    eapply notif_frame_trans; eauto.
  - destruct (quiet_remove_all (map fst (filter (fun p => status_eqb (status (snd p)) Completed)
                                   (pendingUploads q))) q) as [N H].
    apply notif_quiet; auto.
  - destruct (take_reading (inflight q) uid) as [[f rest]|] eqn:T; [|apply notif_refl; reflexivity].
    destruct (take_reading_spec _ _ _ _ T) as (H1 & _).
    destruct r as [b|]; simpl.
    + apply notif_refl; reflexivity.
    + unfold processUpload_catch. apply (notif_settled ids urls); auto; lia.
  - destruct (take_extracting (inflight q) uid) as [rest|] eqn:T; [|apply notif_refl; reflexivity].
    destruct (take_extracting_spec _ _ _ T) as (H1 & _).
    destruct r as [addrs|ex]; simpl; unfold processUpload_catch;
      apply (notif_settled ids urls); auto; lia.
Qed.

(** C1: in every reachable state the number of live jobs whose status is
    [Processing] equals the size of [processingUploads], and it is at most
    [MAX_CONCURRENT_UPLOADS] (5). *)
Theorem C1_processing_at_most_max ids urls q :
  reachable ids urls q ->
  count_processing q = set_size q.(processingUploads) /\
  count_processing q <= MAX_CONCURRENT_UPLOADS.
Proof.
  intro R. pose proof (reachable_inv _ _ _ R) as I.
  rewrite (count_processing_size _ _ _ I). split; [reflexivity|apply (inv_set_size _ _ _ I)].
Qed.

(** C5: for an admitted job (live, [Processing]) there is a suspended
    attempt; whichever way it fails (the file read rejects, or the extraction
    throws an [Error] or any other value) the failure is caught inside
    [processUpload]: the job's record becomes [Failed] with the message
    ([Failed to read file], the [Error]'s message, or [Unknown error
    occurred]), and in every outcome, success included, the [finally] block
    removes the job from [processingUploads] and then calls [processQueue()]. *)
Theorem C5_failure_caught_slot_released ids urls q k u :
  reachable ids urls q -> getUpload q k = Some u -> u.(status) = Processing ->
  ((exists f rest, take_reading q.(inflight) k = Some (f, rest)) \/
   (exists rest, take_extracting q.(inflight) k = Some rest)) /\
  (forall f rest, take_reading q.(inflight) k = Some (f, rest) ->
     settled_as (step q (ReadSettled k ReadError)) k
                (with_status u Failed None (Some "Failed to read file"))) /\
  (forall rest ex, take_extracting q.(inflight) k = Some rest ->
     settled_as (step q (ExtractSettled k (ExtractThrew ex))) k
                (with_status u Failed None (Some (errorMessage ex)))) /\
  (forall rest addrs, take_extracting q.(inflight) k = Some rest ->
     settled_as (step q (ExtractSettled k (ExtractOk addrs))) k
                (with_status u Completed (Some addrs) None)).
Proof.
  intros R Hu Hs. pose proof (reachable_inv _ _ _ R) as I. unfold getUpload in Hu.
  split; [|split; [|split]].
  - apply task_take. rewrite (inv_tasks _ _ _ I _ _ Hu), Hs. discriminate.
  - intros f rest T. simpl. rewrite T. simpl. unfold processUpload_catch.
    apply (settle_live ids urls); auto. discriminate.
  - intros rest ex T. simpl. rewrite T. simpl. unfold processUpload_catch.
    apply (settle_live ids urls); auto. discriminate.
  - intros rest addrs T. simpl. rewrite T. simpl.
    apply (settle_live ids urls); auto. discriminate.
Qed.

(** C8: when the extraction call of a live job resolves with an empty list
    of addresses, the job becomes [Completed] with [addresses = []] and no
    error. *)
Theorem C8_empty_result_completes ids urls q k u rest :
  reachable ids urls q -> getUpload q k = Some u ->
  take_extracting q.(inflight) k = Some rest ->
  exists u', getUpload (step q (ExtractSettled k (ExtractOk []))) k = Some u' /\
    u'.(status) = Completed /\ u'.(addresses) = Some [] /\ u'.(error) = None.
Proof.
  intros R Hu T. pose proof (reachable_inv _ _ _ R) as I. unfold getUpload in Hu.
  simpl. rewrite T. simpl.
  destruct (settle_live ids urls q k u rest Completed (Some []) None I Hu) as (q1 & _ & _ & _ & G & _);
    [discriminate|].
  exists (with_status u Completed (Some []) None). auto.
Qed.

(** C6: [retryUpload] on an unknown id, or on a job that is not [Failed],
    returns the queue unchanged (no error, no notification); on a [Failed]
    job it sets it to [Pending] and calls [processQueue()]. *)
Theorem C6_retry_only_from_failed :
  (forall q k, (getUpload q k = None \/ exists u, getUpload q k = Some u /\ u.(status) <> Failed) ->
     retryUpload q k = q) /\
  (forall q k u, getUpload q k = Some u -> u.(status) = Failed ->
     retryUpload q k = processQueue (updateUploadStatus q k Pending None None) /\
     getUpload (updateUploadStatus q k Pending None None) k = Some (with_status u Pending None None)).
Proof.
  unfold getUpload. split.
  - intros q k [H|[u [H Hs]]]; unfold retryUpload; rewrite H; [reflexivity|].
    destruct (status u); simpl; congruence.
  - intros q k u H Hs. unfold retryUpload. rewrite H, Hs. simpl. split; [reflexivity|].
    rewrite upd_get, eqb_refl_s, H. reflexivity.
Qed.

(** C7: [removeUpload] is idempotent on the whole queue state; on an id
    absent from a reachable queue it changes nothing; and no thumbnail URL is
    ever revoked twice in a reachable run. *)
Theorem C7_remove_idempotent :
  (forall q k, removeUpload (removeUpload q k) k = removeUpload q k) /\
  (forall ids urls q k, reachable ids urls q -> getUpload q k = None -> removeUpload q k = q) /\
  (forall ids urls q, reachable ids urls q -> NoDup q.(revoked)).
Proof.
  split; [|split].
  - intros q k. destruct (remove_fields q k) as (E1 & E2 & E3 & E4 & E5 & E6).
    destruct (remove_fields (removeUpload q k) k) as (F1 & F2 & F3 & F4 & F5 & F6).
    apply queue_ext; rewrite ?F1, ?F2, ?F3, ?F4, ?F5, ?F6, ?E1, ?E2, ?E3; auto;
      try apply filter_idem.
    rewrite map_get_delete, eqb_refl_s. simpl. apply app_nil_r.
  - intros ids urls q k R H. pose proof (reachable_inv _ _ _ R) as I. unfold getUpload in H.
    destruct (remove_fields q k) as (E1 & E2 & E3 & E4 & E5 & E6).
    assert (Hk : ~ In k (map fst q.(pendingUploads))) by (apply map_get_None; exact H).
    apply queue_ext; auto.
    + rewrite E1. apply map_delete_absent. exact Hk.
    + rewrite E3. apply set_delete_absent. rewrite (inv_set_proc _ _ _ I).
      intros [v [Hv _]]. congruence.
    + rewrite E2. apply map_delete_absent. rewrite (inv_cb_keys _ _ _ I). exact Hk.
    + rewrite E6, H. apply app_nil_r.
  - intros ids urls q R. apply (inv_revoked_nodup _ _ _ (reachable_inv _ _ _ R)).
Qed.

(** C9: [removeUpload] takes the id out of [processingUploads] at once and
    does not touch the suspended attempt; so a later [processQueue()] admits
    another job while the removed one's extraction is still running, and the
    outstanding extraction calls exceed [MAX_CONCURRENT_UPLOADS] while the
    [Processing] jobs stay within it. *)
Theorem C9_removal_frees_slot_early :
  (forall q k, ~ In k (removeUpload q k).(processingUploads) /\
               (removeUpload q k).(inflight) = q.(inflight)) /\
  exists es, fresh_traceb [] [] es = true /\
    count_processing (run empty_queue es) <= MAX_CONCURRENT_UPLOADS /\
    MAX_CONCURRENT_UPLOADS < outstanding_extractions (run empty_queue es).
Proof.
  split.
  - intros q k. destruct (remove_fields q k) as (_ & _ & E3 & E4 & _).
    rewrite E3, In_set_delete. split; [tauto|exact E4].
  - exists remove_in_flight_run. vm_compute. repeat split; lia.
Qed.

(** C2 (as stated, refuted): after [upload_1] is removed while its
    extraction call is outstanding, the resolution of that call runs the
    [finally] block, whose [processQueue()] admits the waiting [upload_6]:
    a job record is updated (and its observer notified) when the removed
    job's call resolves. *)
Lemma C2_counterexample :
  let q0 := run empty_queue (six_uploads ++ [read_ok "upload_1"]) in
  let q := run empty_queue removed_while_extracting in
  let q' := step q (ExtractSettled "upload_1" (ExtractOk ["1 Main St"])) in
  status_of q0 "upload_1" = Some Processing /\
  getUpload q "upload_1" = None /\
  status_of q "upload_6" = Some Pending /\
  status_of q' "upload_6" = Some Processing /\
  getAllUploads q' <> getAllUploads q /\
  length q'.(notifications) = S (length q.(notifications)).
Proof. vm_compute. repeat split; discriminate. Qed.

(** C3 (as stated, refuted): [upload_7] is pending when the failed
    [upload_1] is retried, yet [upload_1] is admitted first. *)
Lemma C3_counterexample :
  let q := run empty_queue retry_before_run in
  let q1 := retryUpload q "upload_1" in
  let q2 := run empty_queue retry_after_run in
  status_of q "upload_1" = Some Failed /\ status_of q "upload_7" = Some Pending /\
  status_of q1 "upload_1" = Some Pending /\ status_of q1 "upload_7" = Some Pending /\
  status_of q2 "upload_1" = Some Processing /\ status_of q2 "upload_7" = Some Pending.
Proof. vm_compute. repeat split. Qed.

(** C2 (amended): the settlement of an attempt whose job has been removed
    applies nothing to the removed job: the id stays absent, no notification
    about it is delivered, and the state is the one before the settlement
    (jobs, callbacks, processing set, notifications, revoked URLs) except
    that the [finally] block may run [processQueue()], which can admit, and
    notify, another pending job. *)
Theorem C2_removed_outcome_not_applied ids urls q k e :
  reachable ids urls q -> getUpload q k = None ->
  (exists r, e = ReadSettled k r) \/ (exists r, e = ExtractSettled k r) ->
  getUpload (step q e) k = None /\
  (exists new, (step q e).(notifications) = q.(notifications) ++ new /\
     forall p, In p new -> (snd p).(id) <> k) /\
  exists q0, q0.(pendingUploads) = q.(pendingUploads) /\ q0.(callbacks) = q.(callbacks) /\
    q0.(processingUploads) = q.(processingUploads) /\ q0.(notifications) = q.(notifications) /\
    q0.(revoked) = q.(revoked) /\ (step q e = q0 \/ step q e = processQueue q0).
Proof.
  intros R Hk He. pose proof (reachable_inv _ _ _ R) as I. unfold getUpload in *.
  destruct (removed_settle_shape ids urls q k e I Hk He) as [q0 (E1 & E2 & E3 & E4 & E5 & E6)].
  assert (S0 : Struct q0) by (apply (struct_same q); auto; apply (inv_struct _ _ _ I)).
  assert (Hk0 : map_get q0.(pendingUploads) k = None) by (rewrite E1; exact Hk).
  split; [|split].
  - destruct E6 as [->| ->]; [exact Hk0|]. apply (pq_absent_quiet q0 k S0 Hk0).
  - destruct E6 as [->| ->].
    + exists []. rewrite app_nil_r. split; [exact E4|]. intros p [].
    + destruct (pq_absent_quiet q0 k S0 Hk0) as [_ [new [N P]]].
      exists new. rewrite N, E4. split; [reflexivity|exact P].
  - exists q0. tauto.
Qed.

(** C3 (amended): admission follows the insertion order of
    [pendingUploads], which is submission order. Every event keeps the
    relative order of the jobs it does not remove (a [retryUpload] included)
    and appends the job an [addUpload] creates; and whenever an event admits
    a job (it becomes [Processing] and was not before), no job listed before
    it is left [Pending]. A retried job thus keeps its original position and
    is admitted before pending jobs submitted after it. *)
Theorem C3_admission_in_insertion_order :
  (forall ids urls q e,
     reachable ids urls q -> fresh_event ids urls e ->
     map id (getAllUploads (step q e)) =
       filter (fun k => map_has (step q e).(pendingUploads) k) (map id (getAllUploads q)) ++
       match e with AddUpload uid _ _ _ _ => [uid] | _ => [] end) /\
  (forall ids urls q e l1 w l2,
     reachable ids urls q -> fresh_event ids urls e ->
     getAllUploads (step q e) = l1 ++ w :: l2 -> w.(status) = Processing ->
     status_of q w.(id) <> Some Processing ->
     forall v, In v l1 -> v.(status) <> Pending).
Proof.
  split.
  - intros ids urls q e R Hf. pose proof (reachable_inv _ _ _ R) as I.
    pose proof (inv_struct _ _ _ I) as S.
    pose proof (inv_struct _ _ _ (inv_step _ _ _ _ I Hf)) as S'.
    destruct (step_keys ids urls q e I Hf) as [p E].
    assert (Hx : forall k, In k (match e with AddUpload uid _ _ _ _ => [uid] | _ => [] end) ->
                           ~ In k (map fst q.(pendingUploads))).
    { destruct e as [uid f now thumb cb|uid|uid| |uid r|uid r]; simpl; try tauto.
      intros k [<-|[]] Hk. exact (proj1 Hf (inv_keys_issued _ _ _ I _ Hk)). }
    unfold getAllUploads. rewrite (struct_ids_keys _ S'), (struct_ids_keys _ S).
    rewrite (filter_has_keys _ _ _ _ E Hx). exact E.
  - intros ids urls q e l1 w l2 R Hf Hall Hw Hnot.
    pose proof (reachable_inv _ _ _ R) as I.
    assert (Was : forall u, map_get q.(pendingUploads) w.(id) = Some u -> u.(status) <> Processing).
    { intros u Hu Hs. apply Hnot. unfold status_of, getUpload. rewrite Hu. simpl. rewrite Hs. reflexivity. }
    destruct (step_pq_shape ids urls q e I Hf) as (q1 & S1 & F1 & P1 & [E|E]).
    + intros v _. exfalso. rewrite E in Hall. unfold getAllUploads in Hall.
      assert (Gw : map_get q1.(pendingUploads) w.(id) = Some w).
      { apply struct_values_get; [exact S1|]. rewrite Hall. apply in_or_app. right. left. reflexivity. }
      destruct (P1 _ _ Gw Hw) as [u0 [G0 Hs0]]. exact (Was u0 G0 Hs0).
    + rewrite E in Hall. apply (pq_fifo q1 l1 w l2 S1 F1 Hall Hw).
      intros u Hu Hs. destruct (P1 _ _ Hu Hs) as [u0 [G0 Hs0]]. exact (Was u0 G0 Hs0).
Qed.

(** C10: [clearCompleted] removes exactly the [Completed] jobs from the job
    map and the callback map, revokes each one's thumbnail once, in map
    order, and leaves the other jobs, the processing set (which holds no
    completed job), the in-flight attempts and the notifications unchanged. *)
Theorem C10_clearCompleted_exact ids urls q :
  reachable ids urls q ->
  let cs := filter is_completed q.(pendingUploads) in
  let q' := clearCompleted q in
  q'.(pendingUploads) = filter (fun p => negb (is_completed p)) q.(pendingUploads) /\
  (forall k u, getUpload q k = Some u ->
     getUpload q' k = if status_eqb u.(status) Completed then None else Some u) /\
  q'.(callbacks) = filter (fun p => negb (existsb (String.eqb (fst p)) (map fst cs))) q.(callbacks) /\
  q'.(processingUploads) = q.(processingUploads) /\
  q'.(inflight) = q.(inflight) /\ q'.(notifications) = q.(notifications) /\
  exists ts, q'.(revoked) = q.(revoked) ++ ts /\
    Forall2 (fun p t => (snd p).(thumbnail) = Some t) cs ts.
Proof.
  intros R cs q'. pose proof (reachable_inv _ _ _ R) as I.
  pose proof (inv_keys_nodup _ _ _ I) as Hnd.
  assert (Hq' : q' = fold_left removeUpload (map fst cs) q) by reflexivity.
  destruct (remove_all_fields (map fst cs) q) as (F1 & F2 & F3 & F4 & F5).
  rewrite <- Hq' in F1, F2, F3, F4, F5.
  assert (P : q'.(pendingUploads) = filter (fun p => negb (is_completed p)) q.(pendingUploads)).
  { rewrite F1. apply filter_ext_in. intros [k u] Hin. simpl. f_equal.
    pose proof (map_get_In_NoDup _ _ _ Hnd Hin) as Hu.
    destruct (existsb (String.eqb k) (map fst cs)) eqn:E.
    - apply existsb_eqb_In in E. apply completed_keys in E; [|exact Hnd].
      destruct E as [u' [Hu' Hc]]. rewrite Hu in Hu'. injection Hu' as <-.
      unfold is_completed. simpl. rewrite Hc. reflexivity.
    - unfold is_completed. simpl. destruct (status_eqb (status u) Completed) eqn:C; [|reflexivity].
      assert (Hc : In k (map fst cs)).
      { apply completed_keys; [exact Hnd|]. exists u. split; [exact Hu|]. apply status_eqb_true. exact C. }
      apply existsb_eqb_In in Hc. congruence. }
  split; [exact P|]. split; [|split; [exact F2|split; [|split; [exact F4|split; [exact F5|]]]]].
  - intros k u Hu. unfold getUpload in *. rewrite P.
    destruct (status_eqb (status u) Completed) eqn:C.
    + apply map_get_None. intro Hk. apply in_map_iff in Hk. destruct Hk as [[k' v] [Hk Hv]].
      simpl in Hk. subst k'. apply filter_In in Hv. destruct Hv as [Hv Hn].
      rewrite (map_get_In_NoDup _ _ _ Hnd Hv) in Hu. injection Hu as ->.
      unfold is_completed in Hn. simpl in Hn. rewrite C in Hn. discriminate.
    + apply map_get_In_NoDup; [apply NoDup_map_filter; exact Hnd|].
      apply filter_In. split; [apply map_get_In; exact Hu|].
      unfold is_completed. simpl. rewrite C. reflexivity.
  - rewrite F3. apply filter_all_true. intros x Hx. apply negb_true_iff.
    destruct (existsb (String.eqb x) (map fst cs)) eqn:E; [|reflexivity].
    apply existsb_eqb_In, completed_keys in E; [|exact Hnd].
    destruct E as [u [Hu Hc]]. apply (inv_set_proc _ _ _ I) in Hx.
    destruct Hx as [u' [Hu' Hp]]. congruence.
  - rewrite Hq', remove_all_revoked.
    + destruct (clear_revoked_part ids urls q cs I) as [ts [E F]].
      * intros p Hp. apply filter_In in Hp. apply Hp.
      * exists ts. rewrite E. split; [reflexivity|exact F].
    + apply NoDup_map_filter. exact Hnd.
Qed.

(** ** Instances of the claims' theorems on concrete runs *)

Lemma C1_witness :
  reachable (issued_ids [] six_uploads) (issued_urls [] six_uploads) (run empty_queue six_uploads) /\
  count_processing (run empty_queue six_uploads) <= MAX_CONCURRENT_UPLOADS.
Proof.
  pose proof (reachable_trace six_uploads ltac:(vm_compute; reflexivity)) as R.
  split; [exact R|]. apply (C1_processing_at_most_max _ _ _ R).
Defined.

Lemma C4_witness :
  reachable (issued_ids [] six_uploads) (issued_urls [] six_uploads) (run empty_queue six_uploads) /\
  fresh_event (issued_ids [] six_uploads) (issued_urls [] six_uploads) (ReadSettled "upload_1" ReadError) /\
  notif_ok (run empty_queue six_uploads) (step (run empty_queue six_uploads) (ReadSettled "upload_1" ReadError)).
Proof.
  pose proof (reachable_trace six_uploads ltac:(vm_compute; reflexivity)) as R.
  split; [exact R|]. split; [exact I|].
  apply (C4_one_notification_per_transition _ _ _ _ R). exact I.
Defined.

Lemma C5_witness :
  reachable (issued_ids [] six_uploads) (issued_urls [] six_uploads) (run empty_queue six_uploads) /\
  getUpload (run empty_queue six_uploads) "upload_1" = Some (demo_record "upload_1" 1 Processing) /\
  settled_as (step (run empty_queue six_uploads) (ReadSettled "upload_1" ReadError)) "upload_1"
             (with_status (demo_record "upload_1" 1 Processing) Failed None (Some "Failed to read file")).
Proof.
  pose proof (reachable_trace six_uploads ltac:(vm_compute; reflexivity)) as R.
  assert (G : getUpload (run empty_queue six_uploads) "upload_1" = Some (demo_record "upload_1" 1 Processing))
    by (vm_compute; reflexivity).
  split; [exact R|]. split; [exact G|].
  destruct (C5_failure_caught_slot_released _ _ _ _ _ R G eq_refl) as (_ & H & _).
  destruct (take_reading (run empty_queue six_uploads).(inflight) "upload_1") as [[f rest]|] eqn:T.
  - exact (H f rest eq_refl).
  - vm_compute in T. discriminate T.
Defined.

Lemma C8_witness :
  let es := six_uploads ++ [read_ok "upload_1"] in
  reachable (issued_ids [] es) (issued_urls [] es) (run empty_queue es) /\
  getUpload (run empty_queue es) "upload_1" = Some (demo_record "upload_1" 1 Processing) /\
  exists u', getUpload (step (run empty_queue es) (ExtractSettled "upload_1" (ExtractOk []))) "upload_1" = Some u' /\
    u'.(status) = Completed /\ u'.(addresses) = Some [] /\ u'.(error) = None.
Proof.
  intro es.
  pose proof (reachable_trace es ltac:(vm_compute; reflexivity)) as R.
  assert (G : getUpload (run empty_queue es) "upload_1" = Some (demo_record "upload_1" 1 Processing))
    by (vm_compute; reflexivity).
  split; [exact R|]. split; [exact G|].
  destruct (take_extracting (run empty_queue es).(inflight) "upload_1") as [rest|] eqn:T.
  - exact (C8_empty_result_completes _ _ _ _ _ rest R G T).
  - vm_compute in T. discriminate T.
Defined.

Lemma C6_witness :
  getUpload (run empty_queue six_uploads) "upload_1" = Some (demo_record "upload_1" 1 Processing) /\
  retryUpload (run empty_queue six_uploads) "upload_1" = run empty_queue six_uploads /\
  getUpload (run empty_queue retry_before_run) "upload_1" =
    Some (with_status (demo_record "upload_1" 1 Processing) Failed None (Some "Failed to read file")) /\
  retryUpload (run empty_queue retry_before_run) "upload_1" =
    processQueue (updateUploadStatus (run empty_queue retry_before_run) "upload_1" Pending None None).
Proof.
  assert (G1 : getUpload (run empty_queue six_uploads) "upload_1" = Some (demo_record "upload_1" 1 Processing))
    by (vm_compute; reflexivity).
  assert (G2 : getUpload (run empty_queue retry_before_run) "upload_1" =
    Some (with_status (demo_record "upload_1" 1 Processing) Failed None (Some "Failed to read file")))
    by (vm_compute; reflexivity).
  destruct C6_retry_only_from_failed as [H1 H2].
  split; [exact G1|]. split.
  - apply H1. right. exists (demo_record "upload_1" 1 Processing). split; [exact G1|discriminate].
  - split; [exact G2|]. apply (H2 _ _ _ G2). reflexivity.
Defined.

Lemma C7_witness :
  reachable (issued_ids [] six_uploads) (issued_urls [] six_uploads) (run empty_queue six_uploads) /\
  getUpload (run empty_queue six_uploads) "upload_9" = None /\
  removeUpload (run empty_queue six_uploads) "upload_9" = run empty_queue six_uploads /\
  NoDup (run empty_queue removed_while_extracting).(revoked).
Proof.
  pose proof (reachable_trace six_uploads ltac:(vm_compute; reflexivity)) as R.
  pose proof (reachable_trace removed_while_extracting ltac:(vm_compute; reflexivity)) as R'.
  assert (G : getUpload (run empty_queue six_uploads) "upload_9" = None) by (vm_compute; reflexivity).
  destruct C7_remove_idempotent as (_ & H2 & H3).
  split; [exact R|]. split; [exact G|]. split.
  - exact (H2 _ _ _ _ R G).
  - exact (H3 _ _ _ R').
Defined.

Lemma C9_witness :
  ~ In "upload_1" (removeUpload (run empty_queue six_uploads) "upload_1").(processingUploads) /\
  (removeUpload (run empty_queue six_uploads) "upload_1").(inflight) = (run empty_queue six_uploads).(inflight).
Proof. destruct C9_removal_frees_slot_early as [H _]. apply H. Defined.

Lemma C2_witness :
  let q := run empty_queue removed_while_extracting in
  let e := ExtractSettled "upload_1" (ExtractOk ["1 Main St"]) in
  reachable (issued_ids [] removed_while_extracting) (issued_urls [] removed_while_extracting) q /\
  getUpload q "upload_1" = None /\
  getUpload (step q e) "upload_1" = None.
Proof.
  intros q e.
  pose proof (reachable_trace removed_while_extracting ltac:(vm_compute; reflexivity)) as R.
  assert (G : getUpload q "upload_1" = None) by (vm_compute; reflexivity).
  split; [exact R|]. split; [exact G|].
  refine (proj1 (C2_removed_outcome_not_applied _ _ _ _ e R G _)).
  right. exists (ExtractOk ["1 Main St"]). reflexivity.
Defined.

Lemma C3_witness :
  let qr := run empty_queue retry_before_run in
  let er := RetryUpload "upload_1" in
  let es := retry_before_run ++ [RetryUpload "upload_1"; read_ok "upload_2"] in
  let q := run empty_queue es in
  let e := ExtractSettled "upload_2" (ExtractOk []) in
  let q0 := run empty_queue six_uploads in
  let e0 := ReadSettled "upload_1" ReadError in
  let l1 := firstn 5 (getAllUploads (step q0 e0)) in
  map id (getAllUploads (step qr er)) =
    filter (fun k => map_has (step qr er).(pendingUploads) k) (map id (getAllUploads qr)) ++ [] /\
  map id (getAllUploads qr) =
    ["upload_1"; "upload_2"; "upload_3"; "upload_4"; "upload_5"; "upload_6"; "upload_7"] /\
  status_of q "upload_1" = Some Pending /\ status_of q "upload_7" = Some Pending /\
  getAllUploads (step q e) = [] ++ demo_record "upload_1" 1 Processing :: skipn 1 (getAllUploads (step q e)) /\
  status_of (step q e) "upload_7" = Some Pending /\
  status_of q0 "upload_6" = Some Pending /\
  getAllUploads (step q0 e0) = l1 ++ [demo_record "upload_6" 6 Processing] /\
  l1 <> [] /\
  (forall v, In v l1 -> v.(status) <> Pending).
Proof.
  intros qr er es q e q0 e0 l1.
  pose proof (reachable_trace retry_before_run ltac:(vm_compute; reflexivity)) as Rr.
  pose proof (reachable_trace six_uploads ltac:(vm_compute; reflexivity)) as R0.
  destruct C3_admission_in_insertion_order as [H1 H2].
  split; [exact (H1 _ _ qr er Rr I)|].
  split; [vm_compute; reflexivity|].
  split; [vm_compute; reflexivity|]. split; [vm_compute; reflexivity|].
  split; [vm_compute; reflexivity|]. split; [vm_compute; reflexivity|].
  split; [vm_compute; reflexivity|]. split; [vm_compute; reflexivity|].
  split; [vm_compute; discriminate|].
  apply (H2 _ _ q0 e0 l1 (demo_record "upload_6" 6 Processing) [] R0 I).
  - vm_compute. reflexivity.
  - reflexivity.
  - vm_compute. discriminate.
Defined.

Lemma C10_witness :
  let q := run empty_queue retry_after_run in
  reachable (issued_ids [] retry_after_run) (issued_urls [] retry_after_run) q /\
  getUpload q "upload_2" = Some (mkUpload "upload_2" demo_file Completed (Some []) None 2 (Some "blob:upload_2")) /\
  getUpload (clearCompleted q) "upload_2" = None /\
  getUpload q "upload_7" = Some (demo_record "upload_7" 7 Pending) /\
  getUpload (clearCompleted q) "upload_7" = Some (demo_record "upload_7" 7 Pending) /\
  (clearCompleted q).(processingUploads) = q.(processingUploads).
Proof.
  intro q.
  pose proof (reachable_trace retry_after_run ltac:(vm_compute; reflexivity)) as R.
  assert (G2 : getUpload q "upload_2" =
    Some (mkUpload "upload_2" demo_file Completed (Some []) None 2 (Some "blob:upload_2")))
    by (vm_compute; reflexivity).
  assert (G7 : getUpload q "upload_7" = Some (demo_record "upload_7" 7 Pending)) by (vm_compute; reflexivity).
  destruct (C10_clearCompleted_exact _ _ _ R) as (_ & H & _ & P & _).
  split; [exact R|]. split; [exact G2|]. split; [exact (H _ _ G2)|].
  split; [exact G7|]. split; [exact (H _ _ G7)|exact P].
Defined.

(** ** Further properties of the queue *)

(** [addUpload] appends the new job at the end of the insertion order,
    registers its callback, and stores its record with the given file, time
    and thumbnail; the record is [Processing] at once exactly when a slot is
    free and no earlier job is waiting, and [Pending] otherwise. *)
Theorem addUpload_appends_job ids urls q uid f now thumb cb :
  reachable ids urls q -> ~ In uid ids -> ~ In thumb urls -> thumb <> "" ->
  map id (getAllUploads (addUpload q uid f now thumb cb)) = map id (getAllUploads q) ++ [uid] /\
  map_get (addUpload q uid f now thumb cb).(callbacks) uid = Some cb /\
  getUpload (addUpload q uid f now thumb cb) uid =
    Some (mkUpload uid f
            (if Nat.ltb (set_size q.(processingUploads)) MAX_CONCURRENT_UPLOADS then
               match find (is_next q) (getAllUploads q) with None => Processing | Some _ => Pending end
             else Pending) None None now (Some thumb)).
Proof.
  intros R H1 H2 H3. pose proof (reachable_inv _ _ _ R) as I.
  pose proof (inv_add_pre _ _ _ uid f now thumb cb I H1 H2 H3) as I2.
  pose proof (inv_struct _ _ _ I2) as S2. pose proof (inv_struct _ _ _ I) as S.
  set (q2 := addUpload_pre q uid f now thumb cb) in *.
  set (rec := mkUpload uid f Pending None None now (Some thumb)).
  assert (Hnk : ~ In uid (map fst q.(pendingUploads))).
  { intro H. apply H1. apply (inv_keys_issued _ _ _ I). exact H. }
  assert (Hhas : map_has q.(pendingUploads) uid = false).
  { destruct (map_has _ _) eqn:E; [|reflexivity]. apply map_has_In in E. contradiction. }
  assert (K2 : map fst q2.(pendingUploads) = map fst q.(pendingUploads) ++ [uid]).
  { unfold q2, addUpload_pre. simpl. rewrite map_keys_set, Hhas. reflexivity. }
  assert (V2 : map_values q2.(pendingUploads) = map_values q.(pendingUploads) ++ [rec]).
  { unfold q2, addUpload_pre. simpl. unfold map_set. rewrite Hhas. unfold map_values.
    rewrite map_app. reflexivity. }
  assert (G2 : map_get q2.(pendingUploads) uid = Some rec).
  { unfold q2, addUpload_pre. simpl. rewrite map_get_set, eqb_refl_s. reflexivity. }
  destruct (notif_processQueue q2 S2) as (_ & [_ C] & S3).
  rewrite addUpload_unfold. fold q2. split; [|split].
  - unfold getAllUploads. rewrite (struct_ids_keys _ S3), pq_keys, K2, (struct_ids_keys _ S).
    reflexivity.
  - rewrite C. unfold q2, addUpload_pre. simpl. rewrite map_get_set, eqb_refl_s. reflexivity.
  - unfold getUpload, getAllUploads.
    destruct (Nat.ltb (set_size q.(processingUploads)) MAX_CONCURRENT_UPLOADS) eqn:L.
    + apply Nat.ltb_lt in L.
      destruct (find (is_next q) (map_values q.(pendingUploads))) as [v|] eqn:F.
      * assert (F2 : find (is_next q2) (map_values q2.(pendingUploads)) = Some v).
        { rewrite V2. apply find_app_some. exact F. }
        destruct (pq_admits q2 v S2 L F2) as [_ Hother].
        destruct S as (Hnd & _ & Hid). destruct (find_values_get _ _ _ Hnd Hid F) as [Hv _].
        rewrite Hother; [exact G2|]. intro E. apply Hnk. rewrite E.
        apply (in_keys_get_any _ (id v)). eauto.
      * assert (F2 : find (is_next q2) (map_values q2.(pendingUploads)) = Some rec).
        { rewrite V2. rewrite find_app_none by exact F. simpl.
          unfold is_next. simpl. destruct (set_has (processingUploads q) uid) eqn:Hs; [|reflexivity].
          apply set_has_In, (inv_set_proc _ _ _ I) in Hs. destruct Hs as [w [Hw _]].
          exfalso. apply Hnk. apply (in_keys_get_any _ uid). eauto. }
        destruct (pq_admits q2 rec S2 L F2) as [A _]. exact A.
    + apply Nat.ltb_ge in L. rewrite pq_full by exact L. exact G2.
Qed.

(** [getUpload] and [getAllUploads] agree: a job is listed once, and
    looking its id up gives exactly the listed record. *)
Theorem getUpload_getAllUploads_agree ids urls q :
  reachable ids urls q ->
  NoDup (map id (getAllUploads q)) /\
  forall k u, getUpload q k = Some u <-> In u (getAllUploads q) /\ u.(id) = k.
Proof.
  intro R. pose proof (reachable_inv _ _ _ R) as I. pose proof (inv_struct _ _ _ I) as S.
  split; [apply struct_ids_nodup; exact S|]. intros k u. unfold getUpload, getAllUploads. split.
  - intro Hu. split; [|apply (inv_id_key _ _ _ I _ _ Hu)].
    unfold map_values. apply (in_map snd _ (k, u)). apply map_get_In. exact Hu.
  - intros [Hin <-]. apply struct_values_get; assumption.
Qed.

(** [removeUpload(id)] drops exactly the job [id] from [getAllUploads()],
    keeping the order of the others, notifies nobody, and keeps the
    callbacks of the other jobs. *)
Theorem removeUpload_list_effect ids urls q k :
  reachable ids urls q ->
  getAllUploads (removeUpload q k) = filter (fun u => negb (String.eqb u.(id) k)) (getAllUploads q) /\
  (removeUpload q k).(notifications) = q.(notifications) /\
  forall k', k' <> k -> map_get (removeUpload q k).(callbacks) k' = map_get q.(callbacks) k'.
Proof.
  intro R. pose proof (reachable_inv _ _ _ R) as I.
  destruct (remove_fields q k) as (E1 & E2 & _ & _ & E5 & _).
  split; [|split; [exact E5|]].
  - unfold getAllUploads. rewrite E1. apply values_delete. intros k' u Hin.
    apply (inv_id_key _ _ _ I). apply map_get_In_NoDup; [apply (inv_keys_nodup _ _ _ I)|exact Hin].
  - intros k' Hk. rewrite E2, map_get_delete, eqb_neq_s by auto. reflexivity.
Qed.

(** Each [Processing] job has exactly one attempt in flight (a file read or
    an extraction call), and a job in any other status has none. *)
Theorem one_attempt_per_processing_job ids urls q k u :
  reachable ids urls q -> getUpload q k = Some u ->
  count_tasks k q.(inflight) = if status_eqb u.(status) Processing then 1 else 0.
Proof. intros R Hu. apply (inv_tasks _ _ _ (reachable_inv _ _ _ R)). exact Hu. Qed.

(** Every listed job has a non-empty thumbnail URL that has not been revoked,
    and no two listed jobs share one. *)
Theorem live_thumbnails_not_revoked ids urls q :
  reachable ids urls q ->
  (forall k u, getUpload q k = Some u ->
     exists t, u.(thumbnail) = Some t /\ t <> "" /\ ~ In t q.(revoked)) /\
  (forall k1 k2 u1 u2, getUpload q k1 = Some u1 -> getUpload q k2 = Some u2 ->
     u1.(thumbnail) = u2.(thumbnail) -> k1 = k2).
Proof.
  intro R. pose proof (reachable_inv _ _ _ R) as I. split.
  - intros k u Hu. destruct (inv_thumb _ _ _ I k u Hu) as [t (Ht & Hne & _ & Hr)]. eauto.
  - apply (inv_thumb_distinct _ _ _ I).
Qed.

(** A [Completed] or [Failed] job is changed by no event but its own retry:
    any other event keeps its record as it is or, for its removal (or
    [clearCompleted()] when it is [Completed]), deletes it. *)
Theorem finished_job_stable ids urls q e k u :
  reachable ids urls q -> fresh_event ids urls e -> getUpload q k = Some u ->
  (u.(status) = Completed \/ u.(status) = Failed) -> e <> RetryUpload k ->
  getUpload (step q e) k = Some u \/
  (getUpload (step q e) k = None /\ (e = RemoveUpload k \/ (e = ClearCompleted /\ u.(status) = Completed))).
Proof.
  intros R Hf Hu Hs Hr. unfold getUpload in *.
  destruct (step_get _ _ _ _ _ _ (reachable_inv _ _ _ R) Hf Hu) as [E|[E|[st [a [er [_ Hc]]]]]];
    [left; exact E|right; exact E|].
  exfalso. destruct Hs as [Hs|Hs]; rewrite Hs in Hc; destruct Hc as [Hc|[Hc|[_ Hc]]];
    discriminate + contradiction.
Qed.

(** No event changes the id, file, timestamp or thumbnail of a job that
    stays in the queue: status updates copy them from the old record. *)
Theorem job_identity_preserved ids urls q e k u u' :
  reachable ids urls q -> fresh_event ids urls e -> getUpload q k = Some u ->
  getUpload (step q e) k = Some u' ->
  u'.(id) = u.(id) /\ u'.(file) = u.(file) /\ u'.(timestamp) = u.(timestamp) /\
  u'.(thumbnail) = u.(thumbnail).
Proof.
  intros R Hf Hu Hu'. unfold getUpload in *.
  destruct (step_get _ _ _ _ _ _ (reachable_inv _ _ _ R) Hf Hu) as [E|[[E _]|[st [a [er [E _]]]]]];
    rewrite E in Hu'; [injection Hu' as <-; repeat split|discriminate|injection Hu' as <-; repeat split].
Qed.

(** ** Instances of the queue properties on concrete runs *)

Lemma addUpload_appends_job_witness :
  let q := run empty_queue six_uploads in
  reachable (issued_ids [] six_uploads) (issued_urls [] six_uploads) q /\
  ~ In "upload_7" (issued_ids [] six_uploads) /\ ~ In "blob:upload_7" (issued_urls [] six_uploads) /\
  "blob:upload_7" <> "" /\
  getUpload (addUpload q "upload_7" demo_file 7 "blob:upload_7" 7) "upload_7" =
    Some (mkUpload "upload_7" demo_file Pending None None 7 (Some "blob:upload_7")).
Proof.
  intro q. pose proof (reachable_trace six_uploads ltac:(vm_compute; reflexivity)) as R.
  assert (H1 : ~ In "upload_7" (issued_ids [] six_uploads)) by (vm_compute; intuition discriminate).
  assert (H2 : ~ In "blob:upload_7" (issued_urls [] six_uploads)) by (vm_compute; intuition discriminate).
  assert (H3 : "blob:upload_7" <> "") by discriminate.
  split; [exact R|]. split; [exact H1|]. split; [exact H2|]. split; [exact H3|].
  destruct (addUpload_appends_job _ _ q "upload_7" demo_file 7 "blob:upload_7" 7 R H1 H2 H3) as (_ & _ & G).
  rewrite G. vm_compute. reflexivity.
Defined.

Lemma getUpload_getAllUploads_agree_witness :
  reachable (issued_ids [] six_uploads) (issued_urls [] six_uploads) (run empty_queue six_uploads) /\
  NoDup (map id (getAllUploads (run empty_queue six_uploads))).
Proof.
  pose proof (reachable_trace six_uploads ltac:(vm_compute; reflexivity)) as R.
  split; [exact R|]. exact (proj1 (getUpload_getAllUploads_agree _ _ _ R)).
Defined.

Lemma removeUpload_list_effect_witness :
  reachable (issued_ids [] six_uploads) (issued_urls [] six_uploads) (run empty_queue six_uploads) /\
  map id (getAllUploads (removeUpload (run empty_queue six_uploads) "upload_3")) =
    ["upload_1"; "upload_2"; "upload_4"; "upload_5"; "upload_6"].
Proof.
  pose proof (reachable_trace six_uploads ltac:(vm_compute; reflexivity)) as R.
  split; [exact R|].
  rewrite (proj1 (removeUpload_list_effect _ _ _ "upload_3" R)). vm_compute. reflexivity.
Defined.

Lemma one_attempt_per_processing_job_witness :
  reachable (issued_ids [] six_uploads) (issued_urls [] six_uploads) (run empty_queue six_uploads) /\
  getUpload (run empty_queue six_uploads) "upload_6" = Some (demo_record "upload_6" 6 Pending) /\
  count_tasks "upload_6" (run empty_queue six_uploads).(inflight) = 0.
Proof.
  pose proof (reachable_trace six_uploads ltac:(vm_compute; reflexivity)) as R.
  assert (G : getUpload (run empty_queue six_uploads) "upload_6" = Some (demo_record "upload_6" 6 Pending))
    by (vm_compute; reflexivity).
  split; [exact R|]. split; [exact G|].
  exact (one_attempt_per_processing_job _ _ _ _ _ R G).
Defined.

Lemma live_thumbnails_not_revoked_witness :
  reachable (issued_ids [] removed_while_extracting) (issued_urls [] removed_while_extracting)
    (run empty_queue removed_while_extracting) /\
  getUpload (run empty_queue removed_while_extracting) "upload_2" = Some (demo_record "upload_2" 2 Processing) /\
  ~ In "blob:upload_2" (run empty_queue removed_while_extracting).(revoked).
Proof.
  pose proof (reachable_trace removed_while_extracting ltac:(vm_compute; reflexivity)) as R.
  assert (G : getUpload (run empty_queue removed_while_extracting) "upload_2" =
              Some (demo_record "upload_2" 2 Processing)) by (vm_compute; reflexivity).
  split; [exact R|]. split; [exact G|].
  destruct ((proj1 (live_thumbnails_not_revoked _ _ _ R)) _ _ G) as [t (Ht & _ & Hr)].
  simpl in Ht. injection Ht as <-. exact Hr.
Defined.

Lemma finished_job_stable_witness :
  let q := run empty_queue retry_before_run in
  reachable (issued_ids [] retry_before_run) (issued_urls [] retry_before_run) q /\
  fresh_event (issued_ids [] retry_before_run) (issued_urls [] retry_before_run) (RemoveUpload "upload_2") /\
  getUpload q "upload_1" =
    Some (with_status (demo_record "upload_1" 1 Processing) Failed None (Some "Failed to read file")) /\
  getUpload (step q (RemoveUpload "upload_2")) "upload_1" =
    Some (with_status (demo_record "upload_1" 1 Processing) Failed None (Some "Failed to read file")).
Proof.
  intro q. pose proof (reachable_trace retry_before_run ltac:(vm_compute; reflexivity)) as R.
  assert (F : fresh_event (issued_ids [] retry_before_run) (issued_urls [] retry_before_run)
                (RemoveUpload "upload_2")) by exact I.
  assert (G : getUpload q "upload_1" =
    Some (with_status (demo_record "upload_1" 1 Processing) Failed None (Some "Failed to read file")))
    by (vm_compute; reflexivity).
  split; [exact R|]. split; [exact F|]. split; [exact G|].
  destruct (finished_job_stable _ _ _ _ _ _ R F G (or_intror eq_refl) ltac:(discriminate))
    as [E|[_ [E|[E _]]]]; [exact E|discriminate|discriminate].
Defined.

Lemma job_identity_preserved_witness :
  let q := run empty_queue six_uploads in
  reachable (issued_ids [] six_uploads) (issued_urls [] six_uploads) q /\
  fresh_event (issued_ids [] six_uploads) (issued_urls [] six_uploads) (read_ok "upload_1") /\
  getUpload q "upload_1" = Some (demo_record "upload_1" 1 Processing) /\
  getUpload (step q (read_ok "upload_1")) "upload_1" = Some (demo_record "upload_1" 1 Processing) /\
  (demo_record "upload_1" 1 Processing).(thumbnail) = Some "blob:upload_1".
Proof.
  intro q. pose proof (reachable_trace six_uploads ltac:(vm_compute; reflexivity)) as R.
  assert (F : fresh_event (issued_ids [] six_uploads) (issued_urls [] six_uploads) (read_ok "upload_1"))
    by exact I.
  assert (G : getUpload q "upload_1" = Some (demo_record "upload_1" 1 Processing)) by (vm_compute; reflexivity).
  assert (G' : getUpload (step q (read_ok "upload_1")) "upload_1" = Some (demo_record "upload_1" 1 Processing))
    by (vm_compute; reflexivity).
  split; [exact R|]. split; [exact F|]. split; [exact G|]. split; [exact G'|].
  destruct (job_identity_preserved _ _ _ _ _ _ _ R F G G') as (_ & _ & _ & T). exact T.
Defined.

(** ** Further properties of the webhook call, [fileToBase64] and the application *)

(** [extractAddressesFromWebhook] sends the same image and MIME type in every
    request; it sends at most [3 - retryCount] requests (one from a
    [retryCount] of 2 or more), sleeps between two of them only, and sleeps at
    most 3000 ms in total from a [retryCount] of 0 (2000 ms from 1). *)
Theorem webhook_retries_bounded tem b m rc rs :
  let effects := fst (extractAddressesFromWebhook tem b m rc rs) in
  (exists ds, effects = Fetch b m :: flat_map (fun d => [Sleep d; Fetch b m]) ds /\
              length ds <= 2 - rc) /\
  count_fetches effects <= S (2 - rc) /\
  total_sleep effects <= match rc with 0 => 3000 | 1 => 2000 | _ => 0 end.
Proof.
  cbv zeta. revert rc. induction rs as [|r rs IH]; intro rc; simpl.
  - split; [exists []; split; [reflexivity|]|split]; destruct rc as [|[|rc]]; unfold count_fetches; simpl; lia.
  - destruct (try_block tem rc r) as [d|a|e] eqn:T.
    + destruct (try_block_retry _ _ _ _ T) as [Hrc Hd].
      specialize (IH (S rc)).
      destruct (extractAddressesFromWebhook tem b m (S rc) rs) as [eff out]. cbn [fst] in *.
      destruct IH as [[ds [E L]] [C S']]. subst eff.
      assert (Ex : Fetch b m :: Sleep d :: Fetch b m :: flat_map (fun d => [Sleep d; Fetch b m]) ds =
                   Fetch b m :: flat_map (fun d => [Sleep d; Fetch b m]) (d :: ds)) by reflexivity.
      assert (Tot : total_sleep (Fetch b m :: flat_map (fun d => [Sleep d; Fetch b m]) (d :: ds)) =
                    d + total_sleep (Fetch b m :: flat_map (fun d => [Sleep d; Fetch b m]) ds))
        by reflexivity.
      rewrite Ex, count_fetches_shape, Tot.
      split; [exists (d :: ds); split; [reflexivity|]|split];
        destruct rc as [|[|rc]]; simpl in *; lia.
    + split; [exists []; split; [reflexivity|]|split]; destruct rc as [|[|rc]]; unfold count_fetches; simpl; lia.
    + split; [exists []; split; [reflexivity|]|split]; destruct rc as [|[|rc]]; unfold count_fetches; simpl; lia.
Qed.

(** Every address the promise resolves with has a non-blank [trim()]; it
    resolves with no address only after the last allowed request, i.e.
    after [3 - retryCount] requests when [retryCount <= 2]. *)
Theorem webhook_resolved_nonblank tem b m rc rs addrs :
  snd (extractAddressesFromWebhook tem b m rc rs) = Resolved addrs ->
  Forall (fun s => nonblank s = true) addrs /\
  (addrs = [] -> count_fetches (fst (extractAddressesFromWebhook tem b m rc rs)) = S (2 - rc)).
Proof.
  revert rc. induction rs as [|r rs IH]; intro rc; simpl; [discriminate|].
  destruct (try_block tem rc r) as [d|a|e] eqn:T.
  - destruct (try_block_retry _ _ _ _ T) as [Hrc _].
    specialize (IH (S rc)).
    destruct (extractAddressesFromWebhook tem b m (S rc) rs) as [eff out]. cbn [fst snd] in *.
    intro Ho. destruct (IH Ho) as [F C]. split; [exact F|]. intro E. specialize (C E).
    unfold count_fetches in *. cbn [filter length]. rewrite C. destruct rc as [|[|rc]]; simpl; lia.
  - cbn [snd]. injection 1 as <-. destruct (try_block_return _ _ _ _ T) as [F C].
    split; [exact F|]. intro E. specialize (C E). unfold count_fetches. cbn [fst filter length].
    destruct rc as [|[|rc]]; simpl; lia.
  - discriminate.
Qed.

(** Whatever goes wrong, the promise rejects with an [Error] whose [name] is
    not [AbortError] and whose [message] does not contain [fetch]: timeouts,
    network failures and non-[Error] values are always translated. *)
Theorem webhook_rejection_translated tem b m rc rs e :
  snd (extractAddressesFromWebhook tem b m rc rs) = Rejected e ->
  exists name msg, e = JsError name msg /\ jstr_eqb name (js "AbortError") = false /\
    js_includes msg (js "fetch") = false.
Proof.
  revert rc. induction rs as [|r rs IH]; intro rc; simpl; [discriminate|].
  destruct (try_block tem rc r) as [d|a|e'] eqn:T.
  - specialize (IH (S rc)). destruct (extractAddressesFromWebhook tem b m (S rc) rs) as [eff out].
    exact IH.
  - discriminate.
  - simpl. injection 1 as <-. apply catch_error_normal.
Qed.

(** Three responses with status 429 in a row from [retryCount] 0: the call
    waits 1000 ms, then 2000 ms, sends no fourth request, and rejects with
    [Webhook request failed: 429 <statusText>] (the network-error message
    when that text contains [fetch]). *)
Theorem webhook_429_backoff tem b m s1 s2 s3 b1 b2 b3 rest :
  extractAddressesFromWebhook tem b m 0
    (FetchResponded 429 s1 b1 :: FetchResponded 429 s2 b2 :: FetchResponded 429 s3 b3 :: rest) =
  ([Fetch b m; Sleep 1000; Fetch b m; Sleep 2000; Fetch b m],
   Rejected (if js_includes (js "Webhook request failed: 429 " ++ s3) (js "fetch")
             then new_Error (js "Network error: Could not connect to webhook")
             else new_Error (js "Webhook request failed: 429 " ++ s3))).
Proof. reflexivity. Qed.

(** A response other than 2xx that is not a retried 429 ends the call after
    its single request, with no wait, rejecting with
    [Webhook request failed: <status> <statusText>] (the network-error
    message when that text contains [fetch]). *)
Theorem webhook_http_error_not_retried tem b m rc status stt body rest :
  response_ok status = false -> (status <> 429 \/ 2 <= rc) ->
  let msg := js "Webhook request failed: " ++ nat_to_jstr status ++ js " " ++ stt in
  extractAddressesFromWebhook tem b m rc (FetchResponded status stt body :: rest) =
  ([Fetch b m],
   Rejected (if js_includes msg (js "fetch")
             then new_Error (js "Network error: Could not connect to webhook") else new_Error msg)).
Proof.
  intros Hok H msg. simpl. rewrite Hok. simpl.
  replace (Nat.eqb status 429 && Nat.ltb rc 2) with false.
  - reflexivity.
  - destruct H as [H|H]; [apply Nat.eqb_neq in H; rewrite H; reflexivity|].
    apply Nat.ltb_ge in H. rewrite H, andb_false_r. reflexivity.
Qed.

(** A 2xx object response with [success: false] and a non-empty string
    [error] is not retried: the call rejects after one request with that
    string as message (the network-error message when it contains [fetch]). *)
Theorem webhook_success_false_rejects tem b m rc status stt props s rest :
  response_ok status = true ->
  obj_get props (js "success") = Some (JBool false) ->
  obj_get props (js "error") = Some (JStr s) -> s <> [] ->
  extractAddressesFromWebhook tem b m rc (FetchResponded status stt (BodyParsed (JObj props)) :: rest) =
  ([Fetch b m],
   Rejected (if js_includes s (js "fetch")
             then new_Error (js "Network error: Could not connect to webhook") else new_Error s)).
Proof.
  intros Hok Hs He Hne. simpl. rewrite Hok. simpl.
  unfold success_false, error_message. rewrite Hs, He.
  assert (T : js_truthy (Some (JStr s)) = true).
  { simpl. destruct s; [contradiction|reflexivity]. }
  rewrite T. reflexivity.
Qed.

(** A 2xx response that is an array with at least one non-blank string
    resolves after one request with those strings, in order; the other
    items (blank strings, numbers, objects, ...) are dropped. *)
Theorem webhook_array_keeps_valid_strings tem b m rc status stt items rest :
  response_ok status = true -> existsb valid_string items = true ->
  extractAddressesFromWebhook tem b m rc (FetchResponded status stt (BodyParsed (JArr items)) :: rest) =
  ([Fetch b m], Resolved (strings_of (filter valid_string items))).
Proof.
  intros Hok Hv. simpl. rewrite Hok. simpl.
  replace (Nat.eqb (length (strings_of (filter valid_string items))) 0) with false; [reflexivity|].
  symmetry. apply Nat.eqb_neq. apply existsb_exists in Hv. destruct Hv as [v [Hin Hv]].
  apply (in_split v) in Hin. destruct Hin as [l1 [l2 ->]].
  rewrite filter_app. simpl. rewrite Hv. destruct v; try discriminate.
  unfold strings_of. rewrite flat_map_app. simpl. rewrite length_app. simpl. lia.
Qed.

(** In a 2xx object response (without [success: false]) whose selected list
    ([addresses], else [data]) holds an item that is not a string, the call
    rejects after one request with [Invalid address format in response],
    whatever valid addresses the list also holds. *)
Theorem webhook_object_rejects_non_string tem b m rc status stt props xs rest :
  response_ok status = true -> success_false props = false ->
  select_addresses props = Some xs -> forallb is_string xs = false ->
  extractAddressesFromWebhook tem b m rc (FetchResponded status stt (BodyParsed (JObj props)) :: rest) =
  ([Fetch b m], Rejected (new_Error (js "Invalid address format in response"))).
Proof.
  intros Hok Hs Ha Hx. simpl. rewrite Hok. simpl. rewrite Hs, Ha, Hx. reflexivity.
Qed.

(** [fileToBase64] resolves with the text after the comma of a data URL
    [data:<mimeType>;base64,<data>] when neither the MIME type nor the data
    contains a comma. *)
Theorem fileToBase64_data_url mimeType b :
  ~ In 44%N mimeType -> ~ In 44%N b ->
  fileToBase64_onload (js "data:" ++ mimeType ++ js ";base64," ++ b) = Some b.
Proof.
  intros Hm Hb. unfold fileToBase64_onload.
  replace (js "data:" ++ mimeType ++ js ";base64," ++ b) with
    ((js "data:" ++ mimeType ++ js ";base64") ++ 44%N :: b)
    by (rewrite <- !app_assoc; reflexivity).
  assert (Hp : ~ In 44%N (js "data:" ++ mimeType ++ js ";base64")).
  { rewrite !in_app_iff. intros [H|[H|H]]; [|exact (Hm H)|]; simpl in H; lia. }
  rewrite (split_first _ _ _ Hp), (split_no_sep _ _ Hb). reflexivity.
Qed.

(** [fileToBase64] resolves with [undefined] exactly when the read result
    has no comma. *)
Theorem fileToBase64_undefined_iff result :
  fileToBase64_onload result = None <-> ~ In 44%N result.
Proof.
  unfold fileToBase64_onload. split.
  - intros H Hin. destruct (first_occurrence _ _ Hin) as [p [r [-> Hp]]].
    rewrite split_first in H by exact Hp. simpl in H.
    destruct (js_split 44 r) eqn:E; [|discriminate].
    destruct r; simpl in E; [discriminate|]. destruct (N.eqb n 44); [discriminate|].
    destruct (js_split 44 r); discriminate.
  - intro H. rewrite split_no_sep by exact H. reflexivity.
Qed.

(** The updater of the application's callback keeps an upload where it is
    when its id is listed (replacing it) and appends it otherwise; on a list
    without duplicate ids it leaves exactly one entry with that id, the new
    one, and no entry of another id changes. *)
Theorem app_upsert_spec prev u :
  NoDup (map id prev) ->
  map id (app_upsert prev u) = (if existsb (fun v => String.eqb v.(id) u.(id)) prev
                                 then map id prev else map id prev ++ [u.(id)]) /\
  NoDup (map id (app_upsert prev u)) /\
  filter (fun v => String.eqb v.(id) u.(id)) (app_upsert prev u) = [u] /\
  (forall k, k <> u.(id) ->
     filter (fun v => String.eqb v.(id) k) (app_upsert prev u) = filter (fun v => String.eqb v.(id) k) prev).
Proof.
  intro Hnd. unfold app_upsert.
  assert (Hex : existsb (fun v => String.eqb v.(id) u.(id)) prev = true <-> In u.(id) (map id prev)).
  { rewrite existsb_exists, in_map_iff. split; intros [x [H1 H2]]; exists x.
    - apply String.eqb_eq in H2. auto.
    - rewrite H1, eqb_refl_s. auto. }
  destruct (find (fun v => String.eqb v.(id) u.(id)) prev) as [x|] eqn:F.
  - assert (Hin : In u.(id) (map id prev)) by (apply find_id_existsb; eauto).
    apply Hex in Hin as He. rewrite He, upsert_ids_same. split; [reflexivity|].
    split; [exact Hnd|]. split; [apply upsert_filter_self; assumption|].
    intros k Hk. apply upsert_filter_other. exact Hk.
  - assert (Hnin : ~ In u.(id) (map id prev)).
    { intro H. apply find_id_existsb in H. destruct H as [y Hy]. congruence. }
    assert (He : existsb (fun v => String.eqb v.(id) u.(id)) prev = false).
    { destruct (existsb (fun v => String.eqb v.(id) u.(id)) prev) eqn:He'; [|reflexivity].
      exfalso. apply Hnin. apply Hex. reflexivity. }
    rewrite He.
    rewrite map_app. split; [reflexivity|]. split.
    + apply NoDup_app; [exact Hnd|repeat constructor; auto|]. intros a Ha [Hb|[]]. subst. contradiction.
    + rewrite filter_app. simpl. rewrite eqb_refl_s, filter_id_absent by exact Hnin. split; [reflexivity|].
      intros k Hk. rewrite filter_app. simpl. rewrite (eqb_neq_s (id u) k) by auto. apply app_nil_r.
Qed.

(** After [handleImageUpload(file)], the application lists the new upload
    twice (its [processing] snapshot, then the [pending] [newUpload]) when
    the queue starts it at once, i.e. when a slot is free and no earlier job
    waits; otherwise it lists it once, as [pending]. *)
Theorem handleImageUpload_entries ids urls q prev uid f now thumb cb now' thumb' :
  reachable ids urls q -> ~ In uid ids -> ~ In thumb urls -> thumb <> "" -> ~ In uid (map id prev) ->
  filter (fun v => String.eqb v.(id) uid) (snd (handleImageUpload q prev uid f now thumb cb now' thumb')) =
  (if Nat.ltb (set_size q.(processingUploads)) MAX_CONCURRENT_UPLOADS &&
      match find (is_next q) (getAllUploads q) with None => true | Some _ => false end
   then [mkUpload uid f Processing None None now (Some thumb)] else []) ++
  [mkUpload uid f Pending None None now' (Some thumb')].
Proof.
  intros R H1 H2 H3 Hp. pose proof (reachable_inv _ _ _ R) as I.
  pose proof (inv_add_pre _ _ _ uid f now thumb cb I H1 H2 H3) as I2.
  pose proof (inv_struct _ _ _ I2) as S2.
  set (q2 := addUpload_pre q uid f now thumb cb) in *.
  set (rec := mkUpload uid f Pending None None now (Some thumb)).
  assert (Hnk : ~ In uid (map fst q.(pendingUploads))).
  { intro H. apply H1. apply (inv_keys_issued _ _ _ I). exact H. }
  assert (Hhas : map_has q.(pendingUploads) uid = false).
  { destruct (map_has _ _) eqn:E; [|reflexivity]. apply map_has_In in E. contradiction. }
  assert (V2 : map_values q2.(pendingUploads) = map_values q.(pendingUploads) ++ [rec]).
  { unfold q2, addUpload_pre. simpl. unfold map_set. rewrite Hhas. unfold map_values.
    rewrite map_app. reflexivity. }
  assert (N2 : q2.(notifications) = q.(notifications)) by reflexivity.
  assert (P2 : q2.(processingUploads) = q.(processingUploads)) by reflexivity.
  unfold handleImageUpload. cbv zeta. cbn [snd]. rewrite addUpload_unfold. fold q2.
  destruct (pq_notifications q2 S2) as [l [El Ml]]. rewrite El, N2, skipn_app_exact, Ml, P2.
  rewrite filter_app. f_equal; [|simpl; rewrite eqb_refl_s; reflexivity].
  unfold getAllUploads.
  destruct (Nat.ltb (set_size q.(processingUploads)) MAX_CONCURRENT_UPLOADS); cbn [andb fold_left];
    [|apply filter_id_absent; exact Hp].
  destruct (find (is_next q) (map_values q.(pendingUploads))) as [v|] eqn:F.
  - assert (F2 : find (is_next q2) (map_values q2.(pendingUploads)) = Some v).
    { rewrite V2. apply find_app_some. exact F. }
    rewrite F2. cbn [fold_left].
    destruct (inv_struct _ _ _ I) as (Hnd & _ & Hid). destruct (find_values_get _ _ _ Hnd Hid F) as [Hv _].
    assert (Hne : uid <> v.(id)).
    { intro E. apply Hnk. rewrite E. apply (in_keys_get_any _ (id v)). eauto. }
    rewrite app_upsert_filter_other by exact Hne. apply filter_id_absent. exact Hp.
  - assert (F2 : find (is_next q2) (map_values q2.(pendingUploads)) = Some rec).
    { rewrite V2. rewrite find_app_none by exact F. simpl.
      unfold is_next. simpl. destruct (set_has (processingUploads q) uid) eqn:Hs; [|reflexivity].
      apply set_has_In, (inv_set_proc _ _ _ I) in Hs. destruct Hs as [w [Hw _]].
      exfalso. apply Hnk. apply (in_keys_get_any _ uid). eauto. }
    rewrite F2. cbn [fold_left]. rewrite app_upsert_absent by exact Hp.
    rewrite filter_app, filter_id_absent by exact Hp. simpl. rewrite eqb_refl_s. reflexivity.
Qed.

(** ** Instances on concrete responses, data URLs and lists *)

Lemma webhook_resolved_nonblank_witness :
  let rs := [FetchResponded 200 (js "OK")
               (BodyParsed (JArr [JStr (js " 1 Main St "); JNum (js "3"); JStr (js "  ")]))] in
  snd (extractAddressesFromWebhook [] demo_image demo_mime 0 rs) = Resolved [js " 1 Main St "] /\
  Forall (fun s => nonblank s = true) [js " 1 Main St "].
Proof.
  intro rs.
  assert (H : snd (extractAddressesFromWebhook [] demo_image demo_mime 0 rs) = Resolved [js " 1 Main St "])
    by (vm_compute; reflexivity).
  split; [exact H|]. exact (proj1 (webhook_resolved_nonblank _ _ _ _ _ _ H)).
Defined.

Lemma webhook_rejection_translated_witness :
  let rs := [FetchRejected (JsError (js "AbortError") (js "signal is aborted without reason"))] in
  snd (extractAddressesFromWebhook [] demo_image demo_mime 0 rs) =
    Rejected (new_Error (js "Request timeout: Webhook took too long to respond")) /\
  exists name msg, new_Error (js "Request timeout: Webhook took too long to respond") = JsError name msg /\
    jstr_eqb name (js "AbortError") = false /\ js_includes msg (js "fetch") = false.
Proof.
  intro rs.
  assert (H : snd (extractAddressesFromWebhook [] demo_image demo_mime 0 rs) =
    Rejected (new_Error (js "Request timeout: Webhook took too long to respond"))) by (vm_compute; reflexivity).
  split; [exact H|]. exact (webhook_rejection_translated _ _ _ _ _ _ H).
Defined.

Lemma webhook_http_error_not_retried_witness :
  response_ok 500 = false /\ (500 <> 429 \/ 2 <= 0) /\
  extractAddressesFromWebhook [] demo_image demo_mime 0
    [FetchResponded 500 (js "Internal Server Error") (BodyRejected JsNonError)] =
  ([Fetch demo_image demo_mime],
   Rejected (new_Error (js "Webhook request failed: 500 Internal Server Error"))).
Proof.
  assert (Hok : response_ok 500 = false) by reflexivity.
  assert (H : 500 <> 429 \/ 2 <= 0) by (left; discriminate).
  split; [exact Hok|]. split; [exact H|].
  rewrite (webhook_http_error_not_retried [] demo_image demo_mime 0 500 (js "Internal Server Error")
             (BodyRejected JsNonError) [] Hok H).
  vm_compute. reflexivity.
Defined.

Lemma webhook_success_false_rejects_witness :
  let props := [(js "success", JBool false); (js "error", JStr (js "No addresses found"))] in
  response_ok 200 = true /\ obj_get props (js "success") = Some (JBool false) /\
  obj_get props (js "error") = Some (JStr (js "No addresses found")) /\ js "No addresses found" <> [] /\
  extractAddressesFromWebhook [] demo_image demo_mime 0
    [FetchResponded 200 (js "OK") (BodyParsed (JObj props))] =
  ([Fetch demo_image demo_mime], Rejected (new_Error (js "No addresses found"))).
Proof.
  intro props.
  assert (H1 : response_ok 200 = true) by reflexivity.
  assert (H2 : obj_get props (js "success") = Some (JBool false)) by (vm_compute; reflexivity).
  assert (H3 : obj_get props (js "error") = Some (JStr (js "No addresses found"))) by (vm_compute; reflexivity).
  assert (H4 : js "No addresses found" <> []) by discriminate.
  split; [exact H1|]. split; [exact H2|]. split; [exact H3|]. split; [exact H4|].
  rewrite (webhook_success_false_rejects [] demo_image demo_mime 0 200 (js "OK") props _ [] H1 H2 H3 H4).
  vm_compute. reflexivity.
Defined.

Lemma webhook_array_keeps_valid_strings_witness :
  let items := [JStr (js "1 Main St"); JNum (js "42"); JStr (js " "); JNull; JStr (js "2 High St")] in
  response_ok 200 = true /\ existsb valid_string items = true /\
  extractAddressesFromWebhook [] demo_image demo_mime 0
    [FetchResponded 200 (js "OK") (BodyParsed (JArr items))] =
  ([Fetch demo_image demo_mime], Resolved [js "1 Main St"; js "2 High St"]).
Proof.
  intro items.
  assert (H1 : response_ok 200 = true) by reflexivity.
  assert (H2 : existsb valid_string items = true) by (vm_compute; reflexivity).
  split; [exact H1|]. split; [exact H2|].
  rewrite (webhook_array_keeps_valid_strings [] demo_image demo_mime 0 200 (js "OK") items [] H1 H2).
  vm_compute. reflexivity.
Defined.

Lemma webhook_object_rejects_non_string_witness :
  let props := [(js "addresses", JArr [JStr (js "1 Main St"); JNum (js "42")]);
                (js "data", JArr [JStr (js "2 High St")])] in
  response_ok 200 = true /\ success_false props = false /\
  select_addresses props = Some [JStr (js "1 Main St"); JNum (js "42")] /\
  forallb is_string [JStr (js "1 Main St"); JNum (js "42")] = false /\
  extractAddressesFromWebhook [] demo_image demo_mime 0
    [FetchResponded 200 (js "OK") (BodyParsed (JObj props))] =
  ([Fetch demo_image demo_mime], Rejected (new_Error (js "Invalid address format in response"))).
Proof.
  intro props.
  assert (H1 : response_ok 200 = true) by reflexivity.
  assert (H2 : success_false props = false) by (vm_compute; reflexivity).
  assert (H3 : select_addresses props = Some [JStr (js "1 Main St"); JNum (js "42")]) by (vm_compute; reflexivity).
  assert (H4 : forallb is_string [JStr (js "1 Main St"); JNum (js "42")] = false) by reflexivity.
  split; [exact H1|]. split; [exact H2|]. split; [exact H3|]. split; [exact H4|].
  exact (webhook_object_rejects_non_string [] demo_image demo_mime 0 200 (js "OK") props _ [] H1 H2 H3 H4).
Defined.

Lemma fileToBase64_data_url_witness :
  ~ In 44%N demo_mime /\ ~ In 44%N demo_image /\
  fileToBase64_onload (js "data:" ++ demo_mime ++ js ";base64," ++ demo_image) = Some demo_image.
Proof.
  assert (H1 : ~ In 44%N demo_mime) by (vm_compute; intuition discriminate).
  assert (H2 : ~ In 44%N demo_image) by (vm_compute; intuition discriminate).
  split; [exact H1|]. split; [exact H2|]. exact (fileToBase64_data_url _ _ H1 H2).
Defined.

Lemma app_upsert_spec_witness :
  let prev := [demo_record "upload_1" 1 Pending; demo_record "upload_2" 2 Pending] in
  NoDup (map id prev) /\
  filter (fun v => String.eqb v.(id) "upload_2") (app_upsert prev (demo_record "upload_2" 2 Processing)) =
    [demo_record "upload_2" 2 Processing].
Proof.
  intro prev.
  assert (H : NoDup (map id prev)).
  { simpl. constructor; [simpl; intros [E|[]]; discriminate|]. constructor; [intros []|constructor]. }
  split; [exact H|]. exact (proj1 (proj2 (proj2 (app_upsert_spec prev (demo_record "upload_2" 2 Processing) H)))).
Defined.

Lemma handleImageUpload_entries_witness :
  reachable (issued_ids [] []) (issued_urls [] []) (run empty_queue []) /\
  filter (fun v => String.eqb v.(id) "upload_1")
    (snd (handleImageUpload (run empty_queue []) [] "upload_1" demo_file 1 "blob:upload_1" 1 2 "blob:upload_1b")) =
  [mkUpload "upload_1" demo_file Processing None None 1 (Some "blob:upload_1");
   mkUpload "upload_1" demo_file Pending None None 2 (Some "blob:upload_1b")].
Proof.
  pose proof (reachable_trace [] eq_refl) as R.
  split; [exact R|].
  rewrite (handleImageUpload_entries _ _ _ [] "upload_1" demo_file 1 "blob:upload_1" 1 2 "blob:upload_1b" R
             ltac:(simpl; tauto) ltac:(simpl; tauto) ltac:(discriminate) ltac:(simpl; tauto)).
  vm_compute. reflexivity.
Defined.
